(** * MCU-Backend: a shallow embedding of the ESP32 voice-assistant relay

    The backend is a set of serverless HTTP handlers (submit query, binary
    audio upload, poll/delete response, health check) around three adapters:
    the Gemini generation service, the Whisper transcription service and the
    Firebase Realtime Database service.

    JavaScript strings are sequences of UTF-16 code units and are modelled as
    [list N]; the database is a finite map from request identifiers to
    records; the asynchronous handlers, which await every call in sequence,
    are written in a state-and-exception monad over a world made of the
    database, the clock and the log of external calls. *)

From stdpp Require Import gmap list strings.
From Stdlib Require Import ZArith Ascii Strings.Byte Lia.

(** ** JavaScript strings and values *)

Module Js.

Abbreviation jstring := (list N).

Definition ch (a : ascii) : N := N_of_ascii a.

(** A string literal of the source. *)
Definition js (s : string) : jstring := ch <$> String.list_ascii_of_string s.

Definition in_range (lo hi c : N) : bool := ((lo <=? c) && (c <=? hi))%N.

(** [\s] of a regular expression, and the characters removed by
    [String.prototype.trim]: WhiteSpace and LineTerminator. *)
Definition is_space (c : N) : bool :=
  in_range 9 13 c || (c =? 32)%N || (c =? 160)%N || (c =? 5760)%N
  || in_range 8192 8202 c || (c =? 8232)%N || (c =? 8233)%N
  || (c =? 8239)%N || (c =? 8287)%N || (c =? 12288)%N || (c =? 65279)%N.

Fixpoint drop_while (p : N → bool) (s : jstring) : jstring :=
  match s with
  | [] => []
  | c :: r => if p c then drop_while p r else s
  end.

Fixpoint take_while (p : N → bool) (s : jstring) : jstring :=
  match s with
  | [] => []
  | c :: r => if p c then c :: take_while p r else []
  end.

(** [s.trim()] *)
Definition trim (s : jstring) : jstring :=
  reverse (drop_while is_space (reverse (drop_while is_space s))).

(** [s.startsWith(p)] *)
Fixpoint starts_with (p s : jstring) : bool :=
  match p, s with
  | [], _ => true
  | _ :: _, [] => false
  | a :: p', b :: s' => (a =? b)%N && starts_with p' s'
  end.

(** [s.includes(p)] *)
Fixpoint includes (s p : jstring) : bool :=
  starts_with p s ||
  match s with
  | [] => false
  | _ :: r => includes r p
  end.

(** [s.indexOf(p)], [None] for -1. *)
Fixpoint index_of (p s : jstring) : option nat :=
  if starts_with p s then Some 0
  else match s with
       | [] => None
       | _ :: r => S <$> index_of p r
       end.

Fixpoint lastIndexOf_from (i : Z) (s : jstring) (c : N) (acc : Z) : Z :=
  match s with
  | [] => acc
  | x :: r => lastIndexOf_from (i + 1) r c (if (x =? c)%N then i else acc)
  end.

(** [s.lastIndexOf(c)] for a one-character needle; -1 when absent. *)
Definition lastIndexOf (s : jstring) (c : N) : Z := lastIndexOf_from 0 s c (-1).

(** [s.substring(0, n)] *)
Definition substring0 (s : jstring) (n : nat) : jstring := take n s.

(** [s.replace(/re/g, ...)]: the matcher [m] answers, for the text that
    starts at the current position, the length of the match of the regular
    expression there and the text that replaces it. The scan resumes after
    the match; where nothing matches the character is kept. None of the
    expressions of this code base matches the empty string. *)
Fixpoint replace_g (m : jstring → option (nat * jstring)) (skip : nat)
    (s : jstring) : jstring :=
  match s with
  | [] => []
  | c :: r =>
      match skip with
      | S k => replace_g m k r
      | O =>
          match m s with
          | Some (S n, rep) => rep ++ replace_g m n r
          | _ => c :: replace_g m 0 r
          end
      end
  end.

Definition replace_all (m : jstring → option (nat * jstring)) (s : jstring) : jstring :=
  replace_g m 0 s.

(** Values found in a parsed JSON body or built for a JSON response.
    [VObject] stands for any nested object or array. *)
Inductive jsval :=
| VUndefined
| VNull
| VBool (b : bool)
| VNum (n : Z)
| VStr (s : jstring)
| VObject.

(** [!!v] *)
Definition truthy (v : jsval) : bool :=
  match v with
  | VUndefined | VNull => false
  | VBool b => b
  | VNum n => negb (n =? 0)%Z
  | VStr s => negb (bool_decide (s = []))
  | VObject => true
  end.

(** [typeof v === 'string'] *)
Definition is_string (v : jsval) : bool :=
  match v with VStr _ => true | _ => false end.

(** The string behind a value already known to be one. *)
Definition str_of (v : jsval) : jstring :=
  match v with VStr s => s | _ => [] end.

(** An [Error] object: its message and, for network errors, its code. *)
Record js_error := Error { message : jstring; code : option jstring }.

Definition new_Error (msg : jstring) : js_error := Error msg None.

End Js.

Import Js.

(** ** The world the handlers run in *)

Module Runtime.

(** A JavaScript object: property names to values. *)
Abbreviation jsobject := (gmap string jsval).

(** [obj.k]: [undefined] for a property that is not there. *)
Definition prop (obj : jsobject) (k : string) : jsval := default VUndefined (obj !! k).

(** [v === 'literal'] *)
Definition str_eq (v : jsval) (s : jstring) : bool :=
  match v with VStr t => bool_decide (t = s) | _ => false end.

(** What the handlers do to the outside, in the order they do it. A
    database event is logged when the operation went through. *)
Inductive event :=
| DbSet (path : jstring) (value : jsobject)
| DbUpdate (path : jstring) (value : jsobject)
| DbRemove (path : jstring)
| DbOnce (path : jstring)
| WhisperCall (audioBase64 : jstring)
| GeminiCall (prompt : jstring).

(** The Realtime Database as a map from paths to the objects stored there,
    the wall clock in milliseconds, the log, and the number of database
    operations attempted so far. *)
Record world := World {
  db : gmap jstring jsobject;
  now : Z;
  log : list event;
  db_ops : nat
}.

(** The answer of a provider to one call: how long it took, and the text
    it returned or the error it raised. *)
Record reply := Reply { latency : Z; result : jstring + js_error }.

(** What the code does not decide: the environment variables holding the
    API keys, the providers' answers, whether the n-th database operation
    fails (a missing Firebase variable or an error of the SDK), and the
    built-in [Date.prototype.toISOString]. *)
Record env := Env {
  GEMINI_API_KEY : bool;
  GROQ_API_KEY : bool;
  gemini_api : jstring → reply;
  whisper_api : jstring → reply;
  db_fault : nat → option js_error;
  toISOString : Z → jstring
}.

Inductive outcome (A : Type) :=
| Ok (a : A)
| Thrown (e : js_error).
Arguments Ok {A} a.
Arguments Thrown {A} e.

(** An awaited computation: it reads the environment, changes the world and
    returns or throws. What it did before throwing stays done. *)
Definition M (A : Type) : Type := env → world → outcome A * world.

#[export] Instance M_ret : MRet M := λ A a _ w, (Ok a, w).

#[export] Instance M_bind : MBind M := λ A B f m e w,
  match m e w with
  | (Ok a, w') => f a e w'
  | (Thrown err, w') => (Thrown err, w')
  end.

#[export] Instance M_throw : MThrow js_error M := λ A err _ w, (Thrown err, w).

(** [try { m } catch (error) { h error }] *)
Definition try_catch {A} (m : M A) (h : js_error → M A) : M A := λ e w,
  match m e w with
  | (Ok a, w') => (Ok a, w')
  | (Thrown err, w') => h err e w'
  end.

Definition ask : M env := λ e w, (Ok e, w).

(** [Date.now()] *)
Definition Date_now : M Z := λ _ w, (Ok (now w), w).

Definition sleep (ms : Z) : M unit := λ _ w,
  (Ok (), World (db w) (now w + ms) (log w) (db_ops w)).

Definition emit (ev : event) : M unit := λ _ w,
  (Ok (), World (db w) (now w) (log w ++ [ev]) (db_ops w)).

(** One operation on a database reference: it fails when the environment
    says so and leaves the database alone; otherwise it is applied and
    logged. *)
Definition firebase {A} (op : gmap jstring jsobject → A * gmap jstring jsobject)
    (ev : event) : M A := λ e w,
  match db_fault e (db_ops w) with
  | Some err => (Thrown err, World (db w) (now w) (log w) (S (db_ops w)))
  | None =>
      let '(a, d) := op (db w) in
      (Ok a, World d (now w) (log w ++ [ev]) (S (db_ops w)))
  end.

(** [v === null] *)
Definition is_null (v : jsval) : bool :=
  match v with VNull => true | _ => false end.

(** What the Realtime Database keeps of a value it is given: it stores no
    [null], a property whose value is [null] is not written. *)
Definition stored (value : jsobject) : jsobject :=
  omap (λ v, if is_null v then None else Some v) value.

(** The database with [value] at [path]; a node that has no property does
    not exist. *)
Definition put (path : jstring) (value : jsobject) (d : gmap jstring jsobject)
    : gmap jstring jsobject :=
  if decide (value = ∅) then delete path d else <[path := value]> d.

(** [ref.set(value)] *)
Definition ref_set (path : jstring) (value : jsobject) : M unit :=
  firebase (λ d, ((), put path (stored value) d)) (DbSet path value).

(** [ref.update(value)]: the given properties are written, the others kept.
    The values that this code updates with hold no [null]. *)
Definition ref_update (path : jstring) (value : jsobject) : M unit :=
  firebase (λ d, ((), <[path := value ∪ default ∅ (d !! path)]> d)) (DbUpdate path value).

(** [ref.once('value')]: the snapshot, [None] when it does not exist. *)
Definition ref_once (path : jstring) : M (option jsobject) :=
  firebase (λ d, (d !! path, d)) (DbOnce path).

(** [ref.remove()] *)
Definition ref_remove (path : jstring) : M unit :=
  firebase (λ d, ((), delete path d)) (DbRemove path).

(** A call to a provider: logged, then the clock moves by the time the
    provider took. *)
Definition call_provider (api : env → jstring → reply) (ev : event) (arg : jstring)
    : M (jstring + js_error) :=
  e ← ask;
  emit ev;;
  sleep (latency (api e arg));;
  mret (result (api e arg)).

(** An HTTP request as a handler sees it; [B] is the type of the body the
    platform hands to that handler. *)
Record request (B : Type) := Request {
  method : string;
  headers : gmap string jsval;
  query : gmap string jsval;
  body : B
}.
Arguments Request {B}.
Arguments method {B}.
Arguments headers {B}.
Arguments query {B}.
Arguments body {B}.

(** What was sent back: the headers set, the status, and the JSON body
    ([None] after [res.status(..).end()]). *)
Record response := Response {
  res_headers : gmap string string;
  res_status : Z;
  res_body : option jsobject
}.

(** [res.status(code).json(obj)] *)
Definition send_json (hdrs : gmap string string) (code : Z) (obj : jsobject) : response :=
  Response hdrs code (Some obj).

(** [res.status(code).end()] *)
Definition send_end (hdrs : gmap string string) (code : Z) : response :=
  Response hdrs code None.

(** An object literal. Later properties win, as in JavaScript. *)
Definition object (props : list (string * jsval)) : jsobject := list_to_map (reverse props).

End Runtime.

Import Runtime.

(** ** services/dbService.js *)

Module DbService.

Module ResponseStatus.
Definition PENDING : jstring := js "pending".
Definition COMPLETED : jstring := js "completed".
Definition ERROR : jstring := js "error".
End ResponseStatus.

(** [getRef(`responses/${requestId}`)]. The handlers only pass identifiers
    made of letters, digits, [_] and [-], so a path never has a third
    segment. *)
Definition getRef (requestId : jstring) : jstring := js "responses/" ++ requestId.

Definition savePendingResponse (requestId : jstring) : M unit :=
  let ref := getRef requestId in
  timestamp ← Date_now;
  ref_set ref (object [
    ("text", VNull);
    ("status", VStr ResponseStatus.PENDING);
    ("timestamp", VNum timestamp);
    ("consumed", VBool false) ]).

Definition saveResponse (requestId : jstring) (text : jstring) : M unit :=
  let ref := getRef requestId in
  timestamp ← Date_now;
  ref_set ref (object [
    ("text", VStr text);
    ("status", VStr ResponseStatus.COMPLETED);
    ("timestamp", VNum timestamp);
    ("consumed", VBool false) ]).

Definition saveErrorResponse (requestId : jstring) (errorMessage : jstring) : M unit :=
  let ref := getRef requestId in
  timestamp ← Date_now;
  ref_set ref (object [
    ("text", VStr errorMessage);
    ("status", VStr ResponseStatus.ERROR);
    ("timestamp", VNum timestamp);
    ("consumed", VBool false) ]).

(** [null] is [None]. *)
Definition getResponse (requestId : jstring) : M (option jsobject) :=
  let ref := getRef requestId in
  snapshot ← ref_once ref;
  match snapshot with
  | None => mret None
  | Some data =>
      mret (Some (object [
        ("requestId", VStr requestId);
        ("text", prop data "text");
        ("status", prop data "status");
        ("timestamp", prop data "timestamp");
        ("consumed", prop data "consumed") ]))
  end.

Definition markAsConsumed (requestId : jstring) : M unit :=
  let ref := getRef requestId in
  consumedAt ← Date_now;
  ref_update ref (object [
    ("consumed", VBool true);
    ("consumedAt", VNum consumedAt) ]).

Definition deleteResponse (requestId : jstring) : M bool :=
  let ref := getRef requestId in
  snapshot ← ref_once ref;
  match snapshot with
  | None => mret false
  | Some _ => ref_remove ref;; mret true
  end.

Definition responseExists (requestId : jstring) : M bool :=
  let ref := getRef requestId in
  snapshot ← ref_once ref;
  mret (bool_decide (is_Some snapshot)).

End DbService.

(** ** services/whisperService.js, on the Whisper of Groq *)

Module WhisperService.

(** 200 * 1024 *)
Definition MAX_AUDIO_SIZE_BYTES : N := 204800.

(** [s.length > MAX_AUDIO_SIZE_BYTES] *)
Definition too_large (s : jstring) : bool := (MAX_AUDIO_SIZE_BYTES <? N.of_nat (length s))%N.

(** config/whisper.js, [getGroqClient()] *)
Definition getGroqClient : M unit :=
  e ← ask;
  if GROQ_API_KEY e then mret ()
  else mthrow (new_Error (js "GROQ_API_KEY environment variable is not set")).

(** [groq.audio.transcriptions.create({...})] *)
Definition transcriptions_create (audioBase64 : jstring) : M jstring :=
  r ← call_provider whisper_api (WhisperCall audioBase64) audioBase64;
  match r with
  | inl transcription => mret transcription
  | inr error => mthrow error
  end.

Definition transcribeAudio (audioBase64 : jsval) : M jstring :=
  if negb (truthy audioBase64) || negb (is_string audioBase64) then
    mthrow (new_Error (js "Audio data is required"))
  else if too_large (str_of audioBase64) then
    mthrow (new_Error (js "Audio too large. Max size: 200KB"))
  else
    try_catch
      (getGroqClient;;
       transcription ← transcriptions_create (str_of audioBase64);
       let text := trim transcription in
       if bool_decide (text = []) then
         mthrow (new_Error (js "No speech detected in audio"))
       else mret text)
      (λ error,
         if includes (message error) (js "Invalid file format") then
           mthrow (new_Error (js "Invalid audio format. Please use WAV format."))
         else if includes (message error) (js "too short") then
           mthrow (new_Error (js "Audio too short. Please speak longer."))
         else if bool_decide (code error = Some (js "ECONNRESET"))
                 || includes (message error) (js "timeout") then
           mthrow (new_Error (js "Transcription service timed out. Please try again."))
         else if includes (message error) (js "rate_limit") then
           mthrow (new_Error (js "Rate limit reached. Please wait a moment."))
         else
           mthrow (new_Error (js "Transcription failed: " ++ message error))).

(** [/^[A-Za-z0-9+/]*={0,2}$/] *)
Definition is_base64_char (c : N) : bool :=
  in_range 65 90 c || in_range 97 122 c || in_range 48 57 c
  || (c =? ch "+")%N || (c =? ch "/")%N.

Definition base64Regex_test (s : jstring) : bool :=
  let pad := drop_while is_base64_char s in
  bool_decide (pad = []) || bool_decide (pad = js "=") || bool_decide (pad = js "==").

(** The result of a validation: [{ valid, error }]. *)
Record validation := Validation { valid : bool; error : jstring }.

Definition validateAudioData (audioBase64 : jsval) : validation :=
  if negb (truthy audioBase64) then
    Validation false (js "Audio data is required")
  else if negb (is_string audioBase64) then
    Validation false (js "Audio must be a base64 string")
  else if too_large (str_of audioBase64) then
    Validation false (js "Audio too large. Max 200KB allowed")
  else if negb (base64Regex_test (str_of audioBase64)) then
    Validation false (js "Invalid base64 encoding")
  else Validation true [].

End WhisperService.

(** ** services/geminiService.js, the service that cleans the answer of the
    model with [cleanResponse] *)

Module GeminiService.

Definition MAX_RESPONSE_LENGTH : nat := 1000.
Definition REQUEST_TIMEOUT_MS : Z := 25000.

Definition count_while (p : N → bool) (s : jstring) : nat := length (take_while p s).

Definition is_char (a : ascii) (c : N) : bool := (c =? ch a)%N.
Definition not_char (a : ascii) (c : N) : bool := negb (c =? ch a)%N.

(** [/\*\*/] *)
Definition re_bold (s : jstring) : option (nat * jstring) :=
  if starts_with (js "**") s then Some (2, []) else None.

(** [/\*/] *)
Definition re_star (s : jstring) : option (nat * jstring) :=
  if starts_with (js "*") s then Some (1, []) else None.

(** [/_/], replaced by a space *)
Definition re_underscore (s : jstring) : option (nat * jstring) :=
  if starts_with (js "_") s then Some (1, js " ") else None.

(** [/#{1,6}\s*/]: one to six hashes, greedily, then all the white space. *)
Definition re_header (s : jstring) : option (nat * jstring) :=
  let h := Nat.min 6 (count_while (is_char "#") s) in
  if (h =? 0)%nat then None
  else Some (h + count_while is_space (drop h s), []).

(** [/\[([^\]]+)\]\([^)]+\)/], replaced by [$1]. Each class excludes the
    character that has to follow it, so the greedy match is the only one. *)
Definition re_link (s : jstring) : option (nat * jstring) :=
  match s with
  | c :: r =>
      if is_char "[" c then
        let label := take_while (not_char "]") r in
        match drop (length label) r with
        | c1 :: c2 :: r2 =>
            let url := take_while (not_char ")") r2 in
            if is_char "]" c1 && is_char "(" c2
               && negb (length label =? 0)%nat && negb (length url =? 0)%nat
               && starts_with (js ")") (drop (length url) r2)
            then Some (1 + length label + 2 + length url + 1, label)
            else None
        | _ => None
        end
      else None
  | [] => None
  end.

(** [/```[\s\S]*?```/]: a fence, then lazily up to the next fence. *)
Definition re_fence (s : jstring) : option (nat * jstring) :=
  if starts_with (js "```") s then
    match index_of (js "```") (drop 3 s) with
    | Some k => Some (3 + k + 3, [])
    | None => None
    end
  else None.

(** [/`([^`]+)`/], replaced by [$1] *)
Definition re_code (s : jstring) : option (nat * jstring) :=
  match s with
  | c :: r =>
      if is_char "`" c then
        let body := take_while (not_char "`") r in
        if negb (length body =? 0)%nat && starts_with (js "`") (drop (length body) r)
        then Some (length body + 2, body)
        else None
      else None
  | [] => None
  end.

Definition is_newline (c : N) : bool := (c =? 10)%N.

(** [/\n{3,}/], replaced by two newlines *)
Definition re_newlines (s : jstring) : option (nat * jstring) :=
  let k := count_while is_newline s in
  if (3 <=? k)%nat then Some (k, [10; 10]%N) else None.

(** [/\s+/], replaced by one space *)
Definition re_spaces (s : jstring) : option (nat * jstring) :=
  let k := count_while is_space s in
  if (1 <=? k)%nat then Some (k, js " ") else None.

(** The chain of replacements that opens [cleanResponse], up to [.trim()]. *)
Definition strip_markdown (text : jstring) : jstring :=
  trim
    (replace_all re_spaces
    (replace_all re_newlines
    (replace_all re_code
    (replace_all re_fence
    (replace_all re_link
    (replace_all re_header
    (replace_all re_underscore
    (replace_all re_star
    (replace_all re_bold text))))))))).

(** [cleanResponse(text)] *)
Definition cleanResponse (text : jstring) : jstring :=
  let cleaned := strip_markdown text in
  if (MAX_RESPONSE_LENGTH <? length cleaned)%nat then
    let cleaned := substring0 cleaned MAX_RESPONSE_LENGTH in
    let lastPeriod := lastIndexOf cleaned (ch ".") in
    let lastQuestion := lastIndexOf cleaned (ch "?") in
    let lastExclaim := lastIndexOf cleaned (ch "!") in
    let lastSentenceEnd := Z.max (Z.max lastPeriod lastQuestion) lastExclaim in
    (* MAX_RESPONSE_LENGTH * 0.5 = 500 *)
    if (Z.of_nat MAX_RESPONSE_LENGTH <? 2 * lastSentenceEnd)%Z then
      substring0 cleaned (Z.to_nat (lastSentenceEnd + 1))
    else
      cleaned ++ js "..."
  else cleaned.

(** config/gemini.js, [getModel()] *)
Definition getModel : M unit :=
  e ← ask;
  if GEMINI_API_KEY e then mret ()
  else mthrow (new_Error (js "GEMINI_API_KEY environment variable is not set")).

(** [Promise.race([model.generateContent(prompt), timeoutPromise])] and the
    reading of the text of the result: the provider wins when it settles
    before the timer, and the timer's rejection wins otherwise. *)
Definition generateContent (prompt : jstring) : M jstring :=
  e ← ask;
  emit (GeminiCall prompt);;
  let r := gemini_api e prompt in
  if (latency r <? REQUEST_TIMEOUT_MS)%Z then
    sleep (latency r);;
    match result r with
    | inl responseText => mret responseText
    | inr error => mthrow error
    end
  else
    sleep REQUEST_TIMEOUT_MS;;
    mthrow (new_Error (js "Gemini request timed out")).

(** [generateResponse(text)]. Its two callers pass a string, which is what
    the first statement, [text.substring(0, 50)], needs; of the input test
    [!text || typeof text !== 'string' || text.trim().length === 0] the
    empty and the blank string are then what is left. *)
Definition generateResponse (text : jstring) : M jstring :=
  if bool_decide (text = []) || bool_decide (trim text = []) then
    mthrow (new_Error (js "Invalid input: text is required"))
  else
    try_catch
      (getModel;;
       responseText ← generateContent (trim text);
       if bool_decide (responseText = []) || bool_decide (trim responseText = []) then
         mthrow (new_Error (js "Gemini returned empty response"))
       else
         let cleanedResponse := cleanResponse responseText in
         mret cleanedResponse)
      (λ error,
         if includes (message error) (js "timed out") then
           mthrow (new_Error (js "AI service is taking too long. Please try again."))
         else if includes (message error) (js "SAFETY") then
           mthrow (new_Error (js "Request was blocked for safety reasons."))
         else if includes (message error) (js "quota")
                 || includes (message error) (js "429") then
           mthrow (new_Error (js "AI service rate limit reached. Please wait a moment."))
         else
           mthrow (new_Error (js "AI processing failed: " ++ message error))).

End GeminiService.

(** ** What the handlers share *)

Module Http.

(** [/^[a-zA-Z0-9_-]+$/.test(s)], the grammar of request identifiers, as
    written in query.js, audio.js and response.js. *)
Definition is_token_char (c : N) : bool :=
  in_range 97 122 c || in_range 65 90 c || in_range 48 57 c
  || (c =? ch "_")%N || (c =? ch "-")%N.

Definition token_regex_test (s : jstring) : bool :=
  negb (bool_decide (s = [])) && forallb is_token_char s.

(** [res.setHeader(name, value)], one call after the other. *)
Definition setHeaders (l : list (string * string)) : gmap string string :=
  foldl (λ h kv, <[kv.1 := kv.2]> h) ∅ l.

Definition bool_prop (k : string) (b : bool) : string * jsval := (k, VBool b).
Definition str_prop (k : string) (s : jstring) : string * jsval := (k, VStr s).

End Http.

Import Http.

(** ** api/query.js *)

Module QueryApi.

Import DbService.

(** The parsed JSON body: an object with its properties, or any other
    value ([undefined], [null], a primitive, or an array as [VObject]). *)
Inductive json_body :=
| BodyObject (props : jsobject)
| BodyValue (v : jsval).

(** [!body || typeof body !== 'object'] *)
Definition not_an_object (b : json_body) : bool :=
  match b with
  | BodyObject _ => false
  | BodyValue VObject => false
  | BodyValue _ => true
  end.

(** [body.k] *)
Definition body_prop (b : json_body) (k : string) : jsval :=
  match b with
  | BodyObject props => prop props k
  | BodyValue _ => VUndefined
  end.

Inductive input_type := audio_input | text_input.

(** [{ valid, error, inputType }] *)
Record validation := Validation {
  valid : bool;
  error : jstring;
  inputType : option input_type
}.

Definition invalid (msg : string) : validation := Validation false (js msg) None.

Definition validateRequest (body : json_body) : validation :=
  if not_an_object body then
    invalid "Request body is required"
  else
    let request_id := body_prop body "request_id" in
    if negb (truthy request_id) || negb (is_string request_id) then
      invalid "request_id is required and must be a string"
    else if negb (token_regex_test (str_of request_id)) then
      invalid "request_id contains invalid characters"
    else if (64 <? length (str_of request_id))%nat then
      invalid "request_id must be 64 characters or less"
    else if truthy (body_prop body "audio") then
      let audioValidation := WhisperService.validateAudioData (body_prop body "audio") in
      if negb (WhisperService.valid audioValidation) then
        Validation false (WhisperService.error audioValidation) None
      else Validation true [] (Some audio_input)
    else
      let text := body_prop body "text" in
      if negb (truthy text) || negb (is_string text) then
        invalid "Either text or audio is required"
      else if bool_decide (trim (str_of text) = []) then
        invalid "text cannot be empty"
      else if (1000 <? length (str_of text))%nat then
        invalid "text must be 1000 characters or less"
      else Validation true [] (Some text_input).

Definition cors_headers : gmap string string :=
  setHeaders [
    ("Access-Control-Allow-Origin", "*");
    ("Access-Control-Allow-Methods", "POST, OPTIONS");
    ("Access-Control-Allow-Headers", "Content-Type");
    ("Content-Type", "application/json") ].

(** Step 2 of the handler: the text to send to Gemini and the
    transcription, or the response already sent from the [catch]. *)
Definition transcribe_step (res : gmap string string) (request_id : jstring)
    (inputType : option input_type) (text audio : jsval)
    : M (jstring * jsval + response) :=
  match inputType with
  | Some audio_input =>
      try_catch
        (transcription ← WhisperService.transcribeAudio audio;
         mret (inl (transcription, VStr transcription)))
        (λ whisperError,
           saveErrorResponse request_id
             (js "Transcription failed: " ++ message whisperError);;
           mret (inr (send_json res 200 (object [
             bool_prop "success" false;
             str_prop "request_id" request_id;
             str_prop "message" (js "Audio transcription failed");
             str_prop "error" (message whisperError) ]))))
  | _ => mret (inl (str_of text, VNull))
  end.

(** Steps 3 and 4. *)
Definition generate_step (res : gmap string string) (request_id : jstring)
    (queryText : jstring) (transcription : jsval) : M response :=
  try_catch
    (aiResponse ← GeminiService.generateResponse queryText;
     saveResponse request_id aiResponse;;
     let response := object [
       bool_prop "success" true;
       str_prop "request_id" request_id;
       str_prop "message" (js "Query processed successfully") ] in
     let response :=
       if truthy transcription then <["transcription" := transcription]> response
       else response in
     mret (send_json res 200 response))
    (λ geminiError,
       saveErrorResponse request_id (message geminiError);;
       mret (send_json res 200 (object [
         bool_prop "success" true;
         str_prop "request_id" request_id;
         ("transcription", transcription);
         str_prop "message" (js "Query received but AI processing failed");
         str_prop "error" (message geminiError) ]))).

Definition handler (req : request json_body) : M response :=
  let res := cors_headers in
  if decide (method req = "OPTIONS") then mret (send_end res 200)
  else if decide (method req ≠ "POST") then
    mret (send_json res 405 (object [
      bool_prop "success" false;
      str_prop "error" (js "Method not allowed. Use POST.") ]))
  else
    try_catch
      (let validation := validateRequest (body req) in
       if negb (valid validation) then
         mret (send_json res 400 (object [
           bool_prop "success" false;
           str_prop "error" (error validation) ]))
       else
         let request_id := str_of (body_prop (body req) "request_id") in
         let text := body_prop (body req) "text" in
         let audio := body_prop (body req) "audio" in
         let inputType := inputType validation in
         savePendingResponse request_id;;
         step ← transcribe_step res request_id inputType text audio;
         match step with
         | inr sent => mret sent
         | inl (queryText, transcription) =>
             generate_step res request_id queryText transcription
         end)
      (λ error,
         mret (send_json res 500 (object [
           bool_prop "success" false;
           str_prop "error" (js "Internal server error");
           str_prop "message" (message error) ]))).

End QueryApi.

(** ** api/audio.js *)

Module AudioApi.

Import DbService.

(** 2 * 1024 * 1024 *)
Definition MAX_AUDIO_SIZE : N := 2097152.

(** The base64 alphabet. *)
Definition b64 (n : N) : N :=
  if (n <? 26)%N then (65 + n)%N
  else if (n <? 52)%N then (97 + (n - 26))%N
  else if (n <? 62)%N then (48 + (n - 52))%N
  else if (n =? 62)%N then ch "+" else ch "/".

(** [buffer.toString('base64')] *)
Fixpoint toString_base64 (buffer : list Byte.byte) : jstring :=
  match buffer with
  | [] => []
  | [x] =>
      let a := Byte.to_N x in
      [b64 (a / 4); b64 ((a mod 4) * 16); ch "="; ch "="]%N
  | [x; y] =>
      let a := Byte.to_N x in
      let b := Byte.to_N y in
      [b64 (a / 4); b64 ((a mod 4) * 16 + b / 16); b64 ((b mod 16) * 4); ch "="]%N
  | x :: y :: z :: r =>
      let a := Byte.to_N x in
      let b := Byte.to_N y in
      let c := Byte.to_N z in
      [b64 (a / 4); b64 ((a mod 4) * 16 + b / 16);
       b64 ((b mod 16) * 4 + c / 64); b64 (c mod 64)]%N ++ toString_base64 r
  end.

Definition cors_headers : gmap string string :=
  setHeaders [
    ("Access-Control-Allow-Origin", "*");
    ("Access-Control-Allow-Methods", "POST, OPTIONS");
    ("Access-Control-Allow-Headers", "Content-Type, X-Request-ID");
    ("Content-Type", "application/json") ].

Definition bad_request (res : gmap string string) (msg : string) : response :=
  send_json res 400 (object [ bool_prop "success" false; str_prop "error" (js msg) ]).

(** The transcription, or the response already sent from the [catch]. *)
Definition transcribe_step (res : gmap string string) (request_id : jstring)
    (base64Audio : jstring) : M (jstring + response) :=
  try_catch
    (transcription ← WhisperService.transcribeAudio (VStr base64Audio);
     mret (inl transcription))
    (λ err,
       saveErrorResponse request_id (js "Transcription failed");;
       mret (inr (send_json res 200 (object [
         bool_prop "success" false;
         str_prop "request_id" request_id;
         str_prop "error" (js "Transcription failed") ])))).

Definition generate_step (res : gmap string string) (request_id : jstring)
    (transcription : jstring) : M response :=
  try_catch
    (aiResponse ← GeminiService.generateResponse transcription;
     saveResponse request_id aiResponse;;
     mret (send_json res 200 (object [
       bool_prop "success" true;
       str_prop "request_id" request_id;
       str_prop "message" (js "Audio processed successfully") ])))
    (λ err,
       saveErrorResponse request_id (js "AI processing failed");;
       mret (send_json res 200 (object [
         bool_prop "success" false;
         str_prop "request_id" request_id;
         str_prop "error" (js "AI failed") ]))).

(** The body is the raw upload as a [Buffer], [None] when there is none. *)
Definition handler (req : request (option (list Byte.byte))) : M response :=
  let res := cors_headers in
  if decide (method req = "OPTIONS") then mret (send_end res 200)
  else if decide (method req ≠ "POST") then
    mret (send_json res 405 (object [
      bool_prop "success" false; str_prop "error" (js "Use POST method") ]))
  else
    try_catch
      (let request_id := prop (headers req) "x-request-id" in
       if negb (truthy request_id) || negb (is_string request_id)
          || negb (token_regex_test (str_of request_id)) then
         mret (bad_request res "Valid X-Request-ID header required")
       else
         let request_id := str_of request_id in
         match body req with
         | None => mret (bad_request res "Audio data required")
         | Some audioBuffer =>
             if bool_decide (audioBuffer = []) then
               mret (bad_request res "Audio data required")
             else if (MAX_AUDIO_SIZE <? N.of_nat (length audioBuffer))%N then
               mret (bad_request res "Audio too large (max 2MB)")
             else
               let base64Audio := toString_base64 audioBuffer in
               savePendingResponse request_id;;
               step ← transcribe_step res request_id base64Audio;
               match step with
               | inr sent => mret sent
               | inl transcription => generate_step res request_id transcription
               end
         end)
      (λ error,
         mret (send_json res 500 (object [
           bool_prop "success" false; str_prop "error" (js "Server error") ]))).

End AudioApi.

(** ** api/response.js *)

Module ResponseApi.

Import DbService.

Record validation := Validation { valid : bool; error : jstring }.

Definition validateRequestId (requestId : jsval) : validation :=
  if negb (truthy requestId) || negb (is_string requestId) then
    Validation false (js "request_id query parameter is required")
  else if negb (token_regex_test (str_of requestId)) then
    Validation false (js "request_id contains invalid characters")
  else if (64 <? length (str_of requestId))%nat then
    Validation false (js "request_id must be 64 characters or less")
  else Validation true [].

Definition handleGet (res : gmap string string) (requestId : jstring) : M response :=
  try_catch
    (response ← getResponse requestId;
     match response with
     | None =>
         mret (send_json res 404 (object [
           bool_prop "success" false;
           str_prop "request_id" requestId;
           str_prop "status" (js "not_found");
           str_prop "message" (js "No response found for this request_id") ]))
     | Some response =>
         if str_eq (prop response "status") ResponseStatus.PENDING then
           mret (send_json res 202 (object [
             bool_prop "success" true;
             str_prop "request_id" requestId;
             str_prop "status" (js "pending");
             str_prop "message" (js "Response is still being processed") ]))
         else if str_eq (prop response "status") ResponseStatus.ERROR then
           mret (send_json res 200 (object [
             bool_prop "success" true;
             str_prop "request_id" requestId;
             str_prop "status" (js "error");
             ("text", prop response "text");
             str_prop "message" (js "AI processing encountered an error") ]))
         else
           mret (send_json res 200 (object [
             bool_prop "success" true;
             str_prop "request_id" requestId;
             str_prop "status" (js "completed");
             ("text", prop response "text");
             ("timestamp", prop response "timestamp") ]))
     end)
    (λ error,
       mret (send_json res 500 (object [
         bool_prop "success" false;
         str_prop "error" (js "Failed to retrieve response");
         str_prop "message" (message error) ]))).

Definition handleDelete (res : gmap string string) (requestId : jstring) : M response :=
  try_catch
    (deleted ← deleteResponse requestId;
     if negb deleted then
       mret (send_json res 404 (object [
         bool_prop "success" false;
         str_prop "request_id" requestId;
         str_prop "message" (js "No response found to delete") ]))
     else
       mret (send_json res 200 (object [
         bool_prop "success" true;
         str_prop "request_id" requestId;
         str_prop "message" (js "Response deleted successfully") ])))
    (λ error,
       mret (send_json res 500 (object [
         bool_prop "success" false;
         str_prop "error" (js "Failed to delete response");
         str_prop "message" (message error) ]))).

Definition cors_headers : gmap string string :=
  setHeaders [
    ("Access-Control-Allow-Origin", "*");
    ("Access-Control-Allow-Methods", "GET, DELETE, OPTIONS");
    ("Access-Control-Allow-Headers", "Content-Type");
    ("Content-Type", "application/json") ].

Definition handler {B} (req : request B) : M response :=
  let res := cors_headers in
  if decide (method req = "OPTIONS") then mret (send_end res 200)
  else if decide (method req ≠ "GET" ∧ method req ≠ "DELETE") then
    mret (send_json res 405 (object [
      bool_prop "success" false;
      str_prop "error" (js "Method not allowed. Use GET or DELETE.") ]))
  else
    let requestId := prop (query req) "request_id" in
    let validation := validateRequestId requestId in
    if negb (valid validation) then
      mret (send_json res 400 (object [
        bool_prop "success" false;
        str_prop "error" (error validation) ]))
    else if decide (method req = "GET") then handleGet res (str_of requestId)
    else (* the method is DELETE: the others were answered 405 above *)
      handleDelete res (str_of requestId).

End ResponseApi.

(** ** api/index.js: the health check *)

Module IndexApi.

Definition handler {B} (req : request B) : M response :=
  let res := setHeaders [ ("Content-Type", "application/json") ] in
  e ← ask;
  t ← Date_now;
  mret (send_json res 200 (object [
    str_prop "name" (js "ESP32 Voice Assistant API");
    str_prop "version" (js "1.0.0");
    str_prop "status" (js "running");
    ("endpoints", VObject);
    str_prop "timestamp" (toISOString e t) ])).

End IndexApi.

(** ** Vocabulary of the specification *)

Module Spec.

Import DbService.

(** A sentence-terminating punctuation mark. *)
Definition sentence_end (c : N) : Prop := c = ch "." ∨ c = ch "?" ∨ c = ch "!".

(** [i] is the position of the last sentence-terminating mark of [s]. *)
Definition last_sentence_end (s : jstring) (i : nat) : Prop :=
  (∃ c, s !! i = Some c ∧ sentence_end c) ∧
  ∀ j c, (i < j)%nat → s !! j = Some c → ¬ sentence_end c.

(** No sentence-terminating mark of [s] lies past position [m]. *)
Definition no_sentence_end_past (s : jstring) (m : nat) : Prop :=
  ∀ j c, (m < j)%nat → s !! j = Some c → ¬ sentence_end c.

(** A character of the identifier grammar [[A-Za-z0-9_-]]. *)
Definition token_char (c : N) : Prop :=
  (65 ≤ c ≤ 90)%N ∨ (97 ≤ c ≤ 122)%N ∨ (48 ≤ c ≤ 57)%N ∨ c = ch "_" ∨ c = ch "-".

(** An identifier of the accepted grammar: not empty, at most 64
    characters, all of them of the grammar. *)
Definition valid_id (id : jstring) : Prop :=
  id ≠ [] ∧ (length id ≤ 64)%nat ∧ Forall token_char id.

(** The record stored for an identifier, and two of its fields. *)
Definition record_of (w : world) (id : jstring) : option jsobject := db w !! getRef id.

Definition field_of (k : string) (w : world) (id : jstring) : option jsval :=
  record_of w id ≫= (λ rec, rec !! k).

Definition status_of := field_of "status".
Definition timestamp_of := field_of "timestamp".

(** The database never fails. *)
Definition db_available (e : env) : Prop := ∀ n, db_fault e n = None.

(** The events that change the database. *)
Definition is_write (ev : event) : bool :=
  match ev with
  | DbSet _ _ | DbUpdate _ _ | DbRemove _ => true
  | _ => false
  end.

(** The calls to the transcription and generation providers. *)
Definition is_provider_call (ev : event) : bool :=
  match ev with
  | WhisperCall _ | GeminiCall _ => true
  | _ => false
  end.

(** A property of the JSON body of a response. *)
Definition body_field (r : response) (k : string) : option jsval :=
  res_body r ≫= (λ obj, obj !! k).

(** The position that [cleanResponse] computes with [Math.max]. *)
Definition lastSentenceEnd (s : jstring) : Z :=
  Z.max (Z.max (lastIndexOf s (ch ".")) (lastIndexOf s (ch "?"))) (lastIndexOf s (ch "!")).

(** Decision procedures for the two predicates on sentence ends. *)
Definition is_sentence_end (c : N) : bool :=
  (c =? ch ".")%N || (c =? ch "?")%N || (c =? ch "!")%N.

Definition no_sentence_end_in (s : jstring) : bool :=
  forallb (λ c, negb (is_sentence_end c)) s.

Definition last_sentence_end_b (s : jstring) (i : nat) : bool :=
  match s !! i with
  | Some c => is_sentence_end c && no_sentence_end_in (drop (S i) s)
  | None => false
  end.

(** The three objects that the database service writes. *)
Definition pending_record (t : Z) : jsobject :=
  object [ ("text", VNull); ("status", VStr ResponseStatus.PENDING);
           ("timestamp", VNum t); ("consumed", VBool false) ].

Definition completed_record (text : jstring) (t : Z) : jsobject :=
  object [ ("text", VStr text); ("status", VStr ResponseStatus.COMPLETED);
           ("timestamp", VNum t); ("consumed", VBool false) ].

Definition error_record (errorMessage : jstring) (t : Z) : jsobject :=
  object [ ("text", VStr errorMessage); ("status", VStr ResponseStatus.ERROR);
           ("timestamp", VNum t); ("consumed", VBool false) ].

(** The world after a successful [set] of the record of [id]: the database
    holds what it keeps of the record, the log the value it was given. *)
Definition written (w : world) (id : jstring) (rec : jsobject) : world :=
  World (put (getRef id) (stored rec) (db w)) (now w)
        (log w ++ [DbSet (getRef id) rec]) (S (db_ops w)).

(** The downstream AI step of a submission: the transcription when the
    input is audio, then the generation. *)
Inductive ai_result :=
| Answer (text : jstring)
| TranscriptionFailure (err : js_error)
| GenerationFailure (err : js_error).

Definition generation (text : jstring) (e : env) (w : world) : ai_result * world :=
  match GeminiService.generateResponse text e w with
  | (Ok answer, w') => (Answer answer, w')
  | (Thrown err, w') => (GenerationFailure err, w')
  end.

Definition downstream (input : jsval + jstring) (e : env) (w : world)
    : ai_result * world :=
  match input with
  | inl audio =>
      match WhisperService.transcribeAudio audio e w with
      | (Ok transcription, w') => generation transcription e w'
      | (Thrown err, w') => (TranscriptionFailure err, w')
      end
  | inr text => generation text e w
  end.

Definition failed (r : ai_result) : Prop :=
  match r with Answer _ => False | _ => True end.

(** Between two worlds only providers were called: the database is the
    same and the log grew by calls to the providers. *)
Definition calls_only (w w' : world) : Prop :=
  db w' = db w ∧ db_ops w' = db_ops w ∧
  ∃ calls, log w' = log w ++ calls ∧ Forall (λ ev, is_provider_call ev = true) calls.

(** A computation that, whatever the environment and the world, only
    calls providers. *)
Definition provider_only {A} (m : M A) : Prop := ∀ e w, calls_only w (m e w).2.

(** A base64 payload as the validator accepts it: characters of the
    alphabet, then at most two padding characters. *)
Definition base64_char (c : N) : Prop :=
  (65 ≤ c ≤ 90)%N ∨ (97 ≤ c ≤ 122)%N ∨ (48 ≤ c ≤ 57)%N ∨ c = ch "+" ∨ c = ch "/".

Definition base64_shaped (a : jstring) : Prop :=
  ∃ core pad, a = core ++ pad ∧ Forall base64_char core
              ∧ (pad = [] ∨ pad = js "=" ∨ pad = js "==").

(** A body that the submit-query handler accepts for the identifier [id]:
    it carries either an audio payload of at most 200KB in base64, or no
    audio and a text that is not blank and has at most 1000 characters. *)
Definition audio_body (props : jsobject) : Prop :=
  ∃ a, props !! "audio" = Some (VStr a) ∧ a ≠ []
       ∧ (N.of_nat (length a) ≤ 204800)%N ∧ base64_shaped a.

Definition text_body (props : jsobject) : Prop :=
  truthy (prop props "audio") = false ∧
  ∃ t, props !! "text" = Some (VStr t) ∧ trim t ≠ [] ∧ (length t ≤ 1000)%nat.

Definition acceptable_body (b : QueryApi.json_body) (id : jstring) : Prop :=
  ∃ props, b = QueryApi.BodyObject props
           ∧ props !! "request_id" = Some (VStr id) ∧ valid_id id
           ∧ (audio_body props ∨ text_body props).

(** What the submit-query handler hands to the downstream AI step. *)
Definition submit_input (b : QueryApi.json_body) : jsval + jstring :=
  if truthy (QueryApi.body_prop b "audio") then inl (QueryApi.body_prop b "audio")
  else inr (str_of (QueryApi.body_prop b "text")).

(** The record that api/query.js writes last, its success flag and its
    message, by the result of the downstream step. *)
Definition query_record (r : ai_result) (t : Z) : jsobject :=
  match r with
  | Answer answer => completed_record answer t
  | TranscriptionFailure err => error_record (js "Transcription failed: " ++ message err) t
  | GenerationFailure err => error_record (message err) t
  end.

Definition query_success (r : ai_result) : bool :=
  match r with TranscriptionFailure _ => false | _ => true end.

Definition query_message (r : ai_result) : jstring :=
  match r with
  | Answer _ => js "Query processed successfully"
  | TranscriptionFailure _ => js "Audio transcription failed"
  | GenerationFailure _ => js "Query received but AI processing failed"
  end.

(** The record that api/audio.js writes last. *)
Definition audio_record (r : ai_result) (t : Z) : jsobject :=
  match r with
  | Answer answer => completed_record answer t
  | TranscriptionFailure _ => error_record (js "Transcription failed") t
  | GenerationFailure _ => error_record (js "AI processing failed") t
  end.

(** The object that [getResponse] builds from a snapshot. *)
Definition response_object (id : jstring) (data : jsobject) : jsobject :=
  object [ ("requestId", VStr id); ("text", prop data "text");
           ("status", prop data "status"); ("timestamp", prop data "timestamp");
           ("consumed", prop data "consumed") ].

(** The world a computation leaves, and the status it sent. *)
Definition after {A} (m : M A) (e : env) (w : world) : world := (m e w).2.

Definition sent_status (run : outcome response * world) : option Z :=
  match run.1 with
  | Ok resp => Some (res_status resp)
  | Thrown _ => None
  end.

(** The four endpoints, as the platform routes a request to the handler
    of its file: api/query.js, api/audio.js, api/response.js and the
    health check. *)
Inductive api_request :=
| ToQuery (req : request QueryApi.json_body)
| ToAudio (req : request (option (list Byte.byte)))
| ToResponse (req : request ())
| ToHealth (req : request ()).

Definition serve (r : api_request) : M response :=
  match r with
  | ToQuery req => QueryApi.handler req
  | ToAudio req => AudioApi.handler req
  | ToResponse req => ResponseApi.handler req
  | ToHealth req => IndexApi.handler req
  end.

Definition request_method (r : api_request) : string :=
  match r with
  | ToQuery req => method req
  | ToAudio req => method req
  | ToResponse req => method req
  | ToHealth req => method req
  end.

(** The methods of each endpoint, as its file documents them: POST
    /api/query, POST /api/audio, GET and DELETE /api/response, GET /. *)
Definition allowed_methods (r : api_request) : list string :=
  match r with
  | ToQuery _ | ToAudio _ => ["POST"]
  | ToResponse _ => ["GET"; "DELETE"]
  | ToHealth _ => ["GET"]
  end.

Definition is_health_check (r : api_request) : bool :=
  match r with ToHealth _ => true | _ => false end.

(** Environments, a world and requests to run the handlers on. *)
Definition answering_env : env :=
  Env true true
    (λ _, Reply 1200 (inl (js "It is **noon**.")))
    (λ _, Reply 300 (inl (js " what time is it ")))
    (λ _, None)
    (λ _, js "2024-01-01T00:00:00.000Z").

Definition failing_env : env :=
  Env true true
    (λ _, Reply 40 (inr (new_Error (js "429 quota exceeded"))))
    (λ _, Reply 30 (inr (new_Error (js "Invalid file format"))))
    (λ _, None)
    (λ _, js "2024-01-01T00:00:00.000Z").

(** Gemini answers 1001 letters without any punctuation. *)
Definition rambling_env : env :=
  Env true true
    (λ _, Reply 1200 (inl (replicate 1001 (ch "a"))))
    (λ _, Reply 300 (inl (js " what time is it ")))
    (λ _, None)
    (λ _, js "2024-01-01T00:00:00.000Z").

Definition fresh_world : world := World ∅ 1000 [] 0.

Definition post_query (props : list (string * jsval)) : request QueryApi.json_body :=
  Request "POST" ∅ ∅ (QueryApi.BodyObject (object props)).

Definition text_request : request QueryApi.json_body :=
  post_query [ ("request_id", VStr (js "esp32-001")); ("text", VStr (js "what time is it")) ].

Definition audio_request : request QueryApi.json_body :=
  post_query [ ("request_id", VStr (js "esp32-001")); ("audio", VStr (js "UklGRg==")) ].

Definition blank_request : request QueryApi.json_body :=
  post_query [ ("request_id", VStr (js "esp32-001")); ("text", VStr (js "   ")) ].

Definition dotdot_request : request QueryApi.json_body :=
  post_query [ ("request_id", VStr (js "../etc")); ("text", VStr (js "what time is it")) ].

Definition upload_request : request (option (list Byte.byte)) :=
  Request "POST" {[ "x-request-id" := VStr (js "esp32-001") ]} ∅
          (Some [Byte.x52; Byte.x49; Byte.x46; Byte.x46]).

Definition response_request (m : string) : request () :=
  Request m ∅ {[ "request_id" := VStr (js "esp32-001") ]} ().

(** An upload that the binary audio handler accepts for [id]. *)
Definition acceptable_upload (req : request (option (list Byte.byte)))
    (id : jstring) (audioBuffer : list Byte.byte) : Prop :=
  headers req !! "x-request-id" = Some (VStr id) ∧ id ≠ [] ∧ Forall token_char id
  ∧ body req = Some audioBuffer ∧ audioBuffer ≠ []
  ∧ (N.of_nat (length audioBuffer) ≤ 2097152)%N.

End Spec.

Import Spec.

(** ** utils/constants.js *)

Module Constants.

Module LIMITS.
Definition MAX_QUERY_LENGTH : nat := 1000.
Definition MAX_RESPONSE_LENGTH : nat := 1000.
Definition MAX_REQUEST_ID_LENGTH : nat := 64.
Definition GEMINI_TIMEOUT_MS : Z := 25000.
Definition POLL_RETRY_DELAY_MS : Z := 1000.
End LIMITS.

Module ERRORS.
Definition INVALID_REQUEST : jstring := js "Invalid request format".
Definition REQUEST_ID_REQUIRED : jstring := js "request_id is required".
Definition REQUEST_ID_INVALID : jstring := js "request_id contains invalid characters".
Definition TEXT_REQUIRED : jstring := js "text is required".
Definition TEXT_TOO_LONG : jstring := js "text exceeds maximum length".
End ERRORS.

End Constants.

(** ** utils/validator.js *)

Module Validator.

Import Constants.

(** [{ valid, error }] *)
Record validation := Validation { valid : bool; error : jstring }.

Definition validateRequestId (requestId : jsval) : validation :=
  if negb (truthy requestId) || negb (is_string requestId) then
    Validation false ERRORS.REQUEST_ID_REQUIRED
  else
    let trimmed := trim (str_of requestId) in
    if bool_decide (trimmed = []) then
      Validation false ERRORS.REQUEST_ID_REQUIRED
    else if (LIMITS.MAX_REQUEST_ID_LENGTH <? length trimmed)%nat then
      (* `request_id must be ${LIMITS.MAX_REQUEST_ID_LENGTH} characters or less` *)
      Validation false (js "request_id must be 64 characters or less")
    else if negb (token_regex_test trimmed) then
      Validation false ERRORS.REQUEST_ID_INVALID
    else Validation true [].

Definition validateQueryText (text : jsval) : validation :=
  if negb (truthy text) || negb (is_string text) then
    Validation false ERRORS.TEXT_REQUIRED
  else
    let trimmed := trim (str_of text) in
    if bool_decide (trimmed = []) then
      Validation false ERRORS.TEXT_REQUIRED
    else if (LIMITS.MAX_QUERY_LENGTH <? length trimmed)%nat then
      Validation false ERRORS.TEXT_TOO_LONG
    else Validation true [].

Definition validateQueryRequest (body : QueryApi.json_body) : validation :=
  if QueryApi.not_an_object body then
    Validation false ERRORS.INVALID_REQUEST
  else
    let requestIdValidation := validateRequestId (QueryApi.body_prop body "request_id") in
    if negb (valid requestIdValidation) then requestIdValidation
    else
      let textValidation := validateQueryText (QueryApi.body_prop body "text") in
      if negb (valid textValidation) then textValidation
      else Validation true [].

(** [/\0/] *)
Definition re_nul (s : jstring) : option (nat * jstring) :=
  if starts_with [0%N] s then Some (1%nat, []) else None.

(** [s.slice(0, n)] *)
Definition slice0 (s : jstring) (n : nat) : jstring := take n s.

Definition sanitizeInput (input : jsval) : jstring :=
  if negb (is_string input) then []
  else
    slice0
      (replace_all GeminiService.re_spaces
      (replace_all re_nul
      (trim (str_of input))))
      LIMITS.MAX_QUERY_LENGTH.

End Validator.

(** ** Vocabulary of the further properties *)

Module Laws.

Import DbService.

(** Every white-space character of [s] is a space that is followed by a
    character which is not white space, or by the end of [s]. *)
Fixpoint single_spaced (s : jstring) : Prop :=
  match s with
  | [] => True
  | c :: r =>
      (is_space c = true →
       c = ch " " ∧ match r with c' :: _ => is_space c' = false | [] => True end)
      ∧ single_spaced r
  end.

(** [s] does not start with white space. *)
Definition no_leading_space (s : jstring) : Prop :=
  match s with c :: _ => is_space c = false | [] => True end.

(** A character that is none of the markers [*], [_] and [#]. *)
Definition no_marker (c : N) : Prop := c ≠ ch "*" ∧ c ≠ ch "_" ∧ c ≠ ch "#".

(** A character of markup that [cleanResponse] takes away altogether. *)
Definition markup_or_space (c : N) : Prop :=
  c = ch "*" ∨ c = ch "_" ∨ c = ch "#" ∨ is_space c = true.

(** A computation that leaves alone every path of the database but the one
    of the record of [id]. *)
Definition touches_only {A} (id : jstring) (m : M A) : Prop :=
  ∀ e w path, path ≠ getRef id → db (m e w).2 !! path = db w !! path.

(** The messages of the errors that [generateResponse] throws. *)
Definition gemini_error_message (msg : jstring) : Prop :=
  msg = js "Invalid input: text is required"
  ∨ msg = js "AI service is taking too long. Please try again."
  ∨ msg = js "Request was blocked for safety reasons."
  ∨ msg = js "AI service rate limit reached. Please wait a moment."
  ∨ ∃ cause, msg = js "AI processing failed: " ++ cause.

(** The messages of the errors that [transcribeAudio] throws. *)
Definition whisper_error_message (msg : jstring) : Prop :=
  msg = js "Audio data is required"
  ∨ msg = js "Audio too large. Max size: 200KB"
  ∨ msg = js "Invalid audio format. Please use WAV format."
  ∨ msg = js "Audio too short. Please speak longer."
  ∨ msg = js "Transcription service timed out. Please try again."
  ∨ msg = js "Rate limit reached. Please wait a moment."
  ∨ ∃ cause, msg = js "Transcription failed: " ++ cause.

(** The world after a call to a provider that took [ms] milliseconds. *)
Definition called (w : world) (ev : event) (ms : Z) : world :=
  World (db w) (now w + ms) (log w ++ [ev]) (db_ops w).

(** A replacement that keeps the property [P] of the characters. *)
Definition keeps (P : N → Prop) (m : jstring → option (nat * jstring)) : Prop :=
  ∀ s n rep, m s = Some (n, rep) → Forall P s → Forall P rep.
(** Whatever a computation returns satisfies [Q] (it may throw instead). *)
Definition returns {A} (Q : A → Prop) (m : M A) : Prop :=
  ∀ e w a w', m e w = (Ok a, w') → Q a.

(** A response with one of the given statuses and the given headers. *)
Definition answer_of (codes : list Z) (hdrs : gmap string string) (resp : response) : Prop :=
  res_status resp ∈ codes ∧ res_headers resp = hdrs.
(** Further environments and requests to run the handlers on. *)
Definition slow_env : env :=
  Env true true
    (λ _, Reply 60000 (inl (js "It is noon.")))
    (λ _, Reply 300 (inl (js " what time is it ")))
    (λ _, None)
    (λ _, js "2024-01-01T00:00:00.000Z").



(** Gemini answers with markers only. *)
Definition markup_env : env :=
  Env true true
    (λ _, Reply 1200 (inl (js "** __ ##")))
    (λ _, Reply 300 (inl (js " what time is it ")))
    (λ _, None)
    (λ _, js "2024-01-01T00:00:00.000Z").



(** The database is down. *)
Definition down_env : env :=
  Env true true
    (λ _, Reply 1200 (inl (js "It is noon.")))
    (λ _, Reply 300 (inl (js " what time is it ")))
    (λ _, Some (new_Error (js "PERMISSION_DENIED")))
    (λ _, js "2024-01-01T00:00:00.000Z").


(** An identifier of 65 characters and an upload under it. *)
Definition long_id : jstring := replicate 65 (ch "a").

Definition long_upload_request : request (option (list Byte.byte)) :=
  Request "POST" {[ "x-request-id" := VStr long_id ]} ∅
          (Some [Byte.x52; Byte.x49; Byte.x46; Byte.x46]).

Definition long_poll_request : request () :=
  Request "GET" ∅ {[ "request_id" := VStr long_id ]} ().

Definition long_delete_request : request () :=
  Request "DELETE" ∅ {[ "request_id" := VStr long_id ]} ().

End Laws.

Import Laws.

(** * Properties *)

(** ** Strings *)

Section StringFacts.

Implicit Types (s : jstring) (c : N).

Lemma lastIndexOf_from_spec s c : ∀ i acc,
  (lastIndexOf_from i s c acc = acc ∧ c ∉ s) ∨
  (∃ k : nat, lastIndexOf_from i s c acc = (i + Z.of_nat k)%Z ∧ s !! k = Some c
              ∧ ∀ j, (k < j)%nat → s !! j ≠ Some c).
Proof.
  induction s as [|x r IH]; intros i acc; simpl.
  - left. split; [done | apply not_elem_of_nil].
  - destruct (IH (i + 1)%Z (if (x =? c)%N then i else acc))
      as [[Heq Hnot] | (k & Heq & Hk & Hlast)].
    + destruct (N.eqb_spec x c) as [-> | Hne].
      * right. exists 0%nat. rewrite Heq. split; [lia |]. split; [done |].
        intros [|j] Hj Hc; [lia |]. simpl in Hc.
        apply Hnot. by eapply list_elem_of_lookup_2.
      * left. split; [done |]. rewrite not_elem_of_cons. split; [congruence | done].
    + right. exists (S k). rewrite Heq. split; [lia |]. split; [done |].
      intros [|j] Hj; [lia |]. simpl. apply Hlast. lia.
Qed.

(** [lastIndexOf] is -1 when the character does not occur, and otherwise
    the position of its last occurrence. *)
Lemma lastIndexOf_spec s c :
  (lastIndexOf s c = (-1)%Z ∧ c ∉ s) ∨
  (∃ k : nat, lastIndexOf s c = Z.of_nat k ∧ s !! k = Some c
              ∧ ∀ j, (k < j)%nat → s !! j ≠ Some c).
Proof.
  unfold lastIndexOf.
  destruct (lastIndexOf_from_spec s c 0 (-1)) as [H | (k & H & ?)]; [by left |].
  right. exists k. by rewrite H.
Qed.

(** When the last occurrences are sought in a string that has a last
    sentence-terminating mark at [i], none is found after [i]. *)
Lemma lastIndexOf_le_last s c i :
  sentence_end c → last_sentence_end s i → (lastIndexOf s c ≤ Z.of_nat i)%Z.
Proof.
  intros Hc [_ Hafter].
  destruct (lastIndexOf_spec s c) as [[-> _] | (k & -> & Hk & _)]; [lia |].
  destruct (decide (i < k)%nat) as [Hlt | ?]; [| lia].
  exfalso. by eapply Hafter.
Qed.

Lemma lastIndexOf_ge s c i : s !! i = Some c → (Z.of_nat i ≤ lastIndexOf s c)%Z.
Proof.
  intros Hi.
  destruct (lastIndexOf_spec s c) as [[_ Hnot] | (k & -> & _ & Hlast)].
  - exfalso. apply Hnot. by eapply list_elem_of_lookup_2.
  - destruct (decide (k < i)%nat) as [Hlt | ?]; [| lia].
    exfalso. by eapply Hlast.
Qed.

Lemma lastIndexOf_no_mark_past s c m :
  sentence_end c → no_sentence_end_past s m → (lastIndexOf s c ≤ Z.of_nat m)%Z.
Proof.
  intros Hc Hnone.
  destruct (lastIndexOf_spec s c) as [[-> _] | (k & -> & Hk & _)]; [lia |].
  destruct (decide (m < k)%nat) as [Hlt | ?]; [| lia].
  exfalso. by eapply Hnone.
Qed.

Lemma lastSentenceEnd_is_last s i :
  last_sentence_end s i → lastSentenceEnd s = Z.of_nat i.
Proof.
  intros Hlast. pose proof Hlast as [(c & Hi & Hc) _].
  assert (Hdot := lastIndexOf_le_last s (ch ".") i (or_introl eq_refl) Hlast).
  assert (Hq := lastIndexOf_le_last s (ch "?") i (or_intror (or_introl eq_refl)) Hlast).
  assert (Hx := lastIndexOf_le_last s (ch "!") i (or_intror (or_intror eq_refl)) Hlast).
  apply lastIndexOf_ge in Hi. unfold lastSentenceEnd.
  destruct Hc as [-> | [-> | ->]]; lia.
Qed.

Lemma lastSentenceEnd_no_mark_past s m :
  no_sentence_end_past s m → (lastSentenceEnd s ≤ Z.of_nat m)%Z.
Proof.
  intros Hnone.
  assert (Hdot := lastIndexOf_no_mark_past s (ch ".") m (or_introl eq_refl) Hnone).
  assert (Hq := lastIndexOf_no_mark_past s (ch "?") m (or_intror (or_introl eq_refl)) Hnone).
  assert (Hx := lastIndexOf_no_mark_past s (ch "!") m (or_intror (or_intror eq_refl)) Hnone).
  unfold lastSentenceEnd. lia.
Qed.

End StringFacts.

(** ** The generation adapter *)

Section CleanResponse.

Import GeminiService.

Lemma cleanResponse_long text :
  (MAX_RESPONSE_LENGTH < length (strip_markdown text))%nat →
  cleanResponse text =
    let cleaned := take MAX_RESPONSE_LENGTH (strip_markdown text) in
    if (Z.of_nat MAX_RESPONSE_LENGTH <? 2 * lastSentenceEnd cleaned)%Z
    then take (Z.to_nat (lastSentenceEnd cleaned + 1)) cleaned
    else cleaned ++ js "...".
Proof.
  intros Hlong. apply Nat.ltb_lt in Hlong.
  unfold cleanResponse, lastSentenceEnd, substring0. cbv zeta.
  rewrite Hlong. reflexivity.
Qed.

Lemma cleanResponse_short text :
  (length (strip_markdown text) ≤ MAX_RESPONSE_LENGTH)%nat →
  cleanResponse text = strip_markdown text.
Proof.
  intros Hshort. apply Nat.ltb_ge in Hshort.
  unfold cleanResponse. cbv zeta. rewrite Hshort. reflexivity.
Qed.

Lemma MAX_RESPONSE_LENGTH_eq : Z.of_nat MAX_RESPONSE_LENGTH = 1000%Z.
Proof. reflexivity. Qed.

(** C2. A cleaned response longer than 1000 characters is cut to its first
    1000 characters and then: when the last sentence-terminating mark
    ('.', '?' or '!') of that prefix lies past index 500, the prefix is cut
    just after that mark; when no such mark lies past index 500, the
    prefix is returned with "..." appended. *)
Theorem cleanResponse_truncation text :
  (1000 < length (strip_markdown text))%nat →
  let head := take 1000 (strip_markdown text) in
  (∀ i, last_sentence_end head i → (500 < i)%nat →
        cleanResponse text = take (S i) head) ∧
  (no_sentence_end_past head 500 → cleanResponse text = head ++ js "...").
Proof.
  intros Hlong head. rewrite (cleanResponse_long _ Hlong).
  cbv zeta. rewrite MAX_RESPONSE_LENGTH_eq.
  change (take MAX_RESPONSE_LENGTH (strip_markdown text)) with head.
  split.
  - intros i Hlast Hi. rewrite (lastSentenceEnd_is_last _ _ Hlast).
    destruct (Z.ltb_spec 1000 (2 * Z.of_nat i)) as [_ | Hle]; [| lia].
    f_equal. lia.
  - intros Hnone. apply lastSentenceEnd_no_mark_past in Hnone.
    destruct (Z.ltb_spec 1000 (2 * lastSentenceEnd head)) as [Hlt | _]; [lia | reflexivity].
Qed.

(** What [cleanResponse] returns is never longer than the limit plus the
    three characters of the ellipsis. *)
Lemma cleanResponse_length text :
  (length (cleanResponse text) ≤ MAX_RESPONSE_LENGTH + 3)%nat.
Proof.
  destruct (Nat.le_gt_cases (length (strip_markdown text)) MAX_RESPONSE_LENGTH)
    as [Hshort | Hlong].
  - rewrite (cleanResponse_short _ Hshort). lia.
  - rewrite (cleanResponse_long _ Hlong). cbv zeta.
    pose proof (length_take_le (strip_markdown text) MAX_RESPONSE_LENGTH) as Hhead.
    destruct (_ <? _)%Z.
    + rewrite length_take. lia.
    + rewrite length_app. change (length (js "...")) with 3%nat. lia.
Qed.

End CleanResponse.

(** ** Runs of the services *)

Section Runs.

Import DbService.

Implicit Types (e : env) (w : world) (id : jstring).

Lemma ref_set_run e w path value :
  db_fault e (db_ops w) = None →
  ref_set path value e w =
    (Ok (), World (put path (stored value) (db w)) (now w)
                  (log w ++ [DbSet path value]) (S (db_ops w))).
Proof. intros Hup. unfold ref_set, firebase. by rewrite Hup. Qed.

(** *** What the database keeps of a record *)

Lemma lookup_stored (rec : jsobject) k v :
  rec !! k = Some v → is_null v = false → stored rec !! k = Some v.
Proof. intros Hk Hv. unfold stored. rewrite lookup_omap, Hk. simpl. by rewrite Hv. Qed.

Lemma lookup_stored_None (rec : jsobject) k : rec !! k = None → stored rec !! k = None.
Proof. intros Hk. unfold stored. by rewrite lookup_omap, Hk. Qed.

Lemma stored_nonempty (rec : jsobject) k v :
  rec !! k = Some v → is_null v = false → stored rec ≠ ∅.
Proof.
  intros Hk Hv Hempty. pose proof (lookup_stored rec k v Hk Hv) as Hstored.
  rewrite Hempty, lookup_empty in Hstored. discriminate Hstored.
Qed.

Lemma put_nonempty path (value : jsobject) d :
  value ≠ ∅ → put path value d = <[path := value]> d.
Proof. intros Hvalue. unfold put. by destruct (decide (value = ∅)). Qed.

Lemma stored_completed_record text t :
  stored (completed_record text t) = completed_record text t.
Proof. vm_compute. reflexivity. Qed.

Lemma stored_error_record msg t : stored (error_record msg t) = error_record msg t.
Proof. vm_compute. reflexivity. Qed.

(** The pending record is stored without its text, which is [null]. *)
Lemma stored_pending_record t :
  stored (pending_record t)
  = object [ ("status", VStr (js "pending")); ("timestamp", VNum t);
             ("consumed", VBool false) ].
Proof. vm_compute. reflexivity. Qed.

Lemma db_written w id rec s :
  rec !! "status" = Some (VStr s) →
  db (written w id rec) = <[getRef id := stored rec]> (db w).
Proof.
  intros Hstatus. unfold written. cbn [db].
  apply put_nonempty. by eapply stored_nonempty.
Qed.

Lemma record_of_written w id rec s :
  rec !! "status" = Some (VStr s) → record_of (written w id rec) id = Some (stored rec).
Proof.
  intros Hstatus. unfold record_of. rewrite (db_written w id rec s Hstatus).
  apply lookup_insert_eq.
Qed.

Lemma record_of_completed w id text t :
  record_of (written w id (completed_record text t)) id = Some (completed_record text t).
Proof.
  rewrite (record_of_written _ _ _ (js "completed")) by reflexivity.
  by rewrite stored_completed_record.
Qed.

Lemma record_of_error w id msg t :
  record_of (written w id (error_record msg t)) id = Some (error_record msg t).
Proof.
  rewrite (record_of_written _ _ _ (js "error")) by reflexivity.
  by rewrite stored_error_record.
Qed.

Lemma record_of_pending w id t :
  record_of (written w id (pending_record t)) id = Some (stored (pending_record t)).
Proof. by rewrite (record_of_written _ _ _ (js "pending")). Qed.

Lemma savePendingResponse_run e w id :
  db_fault e (db_ops w) = None →
  savePendingResponse id e w = (Ok (), written w id (pending_record (now w))).
Proof. intros Hup. unfold savePendingResponse, mbind, M_bind, Date_now. by rewrite ref_set_run. Qed.

Lemma saveResponse_run e w id text :
  db_fault e (db_ops w) = None →
  saveResponse id text e w = (Ok (), written w id (completed_record text (now w))).
Proof. intros Hup. unfold saveResponse, mbind, M_bind, Date_now. by rewrite ref_set_run. Qed.

Lemma saveErrorResponse_run e w id msg :
  db_fault e (db_ops w) = None →
  saveErrorResponse id msg e w = (Ok (), written w id (error_record msg (now w))).
Proof. intros Hup. unfold saveErrorResponse, mbind, M_bind, Date_now. by rewrite ref_set_run. Qed.

(** *** Computations that only call providers *)

Lemma calls_only_refl w : calls_only w w.
Proof. repeat split. exists []. by rewrite app_nil_r. Qed.

Lemma calls_only_trans w1 w2 w3 :
  calls_only w1 w2 → calls_only w2 w3 → calls_only w1 w3.
Proof.
  intros (Hdb1 & Hops1 & l1 & Hlog1 & Hl1) (Hdb2 & Hops2 & l2 & Hlog2 & Hl2).
  split; [congruence |]. split; [congruence |].
  exists (l1 ++ l2). split.
  - by rewrite Hlog2, Hlog1, app_assoc.
  - by apply Forall_app.
Qed.

Lemma provider_only_ret {A} (a : A) : provider_only (mret a).
Proof. intros e w. apply calls_only_refl. Qed.

Lemma provider_only_throw {A} (err : js_error) : provider_only (mthrow err : M A).
Proof. intros e w. apply calls_only_refl. Qed.

Lemma provider_only_ask : provider_only ask.
Proof. intros e w. apply calls_only_refl. Qed.

Lemma provider_only_sleep ms : provider_only (sleep ms).
Proof. intros e w. repeat split. exists []. by rewrite app_nil_r. Qed.

Lemma provider_only_emit ev : is_provider_call ev = true → provider_only (emit ev).
Proof. intros Hev e w. repeat split. exists [ev]. split; [done | by constructor]. Qed.

Lemma provider_only_bind {A B} (m : M A) (f : A → M B) :
  provider_only m → (∀ a, provider_only (f a)) → provider_only (m ≫= f).
Proof.
  intros Hm Hf e w. unfold mbind, M_bind. specialize (Hm e w).
  destruct (m e w) as [[a | err] w']; simpl in *; [| done].
  eapply calls_only_trans; [done | apply Hf].
Qed.

Lemma provider_only_try_catch {A} (m : M A) (h : js_error → M A) :
  provider_only m → (∀ err, provider_only (h err)) → provider_only (try_catch m h).
Proof.
  intros Hm Hh e w. unfold try_catch. specialize (Hm e w).
  destruct (m e w) as [[a | err] w']; simpl in *; [done |].
  eapply calls_only_trans; [done | apply Hh].
Qed.

Lemma provider_only_if {A} (b : bool) (m1 m2 : M A) :
  provider_only m1 → provider_only m2 → provider_only (if b then m1 else m2).
Proof. by destruct b. Qed.

Lemma provider_only_sum {A B C} (x : A + B) (f : A → M C) (g : B → M C) :
  (∀ a, provider_only (f a)) → (∀ b, provider_only (g b)) →
  provider_only (match x with inl a => f a | inr b => g b end).
Proof. by destruct x. Qed.

Ltac provider_steps :=
  repeat (first [ apply provider_only_if | apply provider_only_try_catch
                | apply provider_only_bind | apply provider_only_sum
                | apply provider_only_ret | apply provider_only_throw
                | apply provider_only_ask | apply provider_only_sleep
                | apply provider_only_emit; reflexivity | intro ]).

Lemma transcribeAudio_provider_only audio :
  provider_only (WhisperService.transcribeAudio audio).
Proof.
  unfold WhisperService.transcribeAudio, WhisperService.getGroqClient,
    WhisperService.transcriptions_create, call_provider.
  provider_steps.
Qed.

Lemma generateResponse_provider_only text :
  provider_only (GeminiService.generateResponse text).
Proof.
  unfold GeminiService.generateResponse, GeminiService.getModel,
    GeminiService.generateContent.
  provider_steps.
Qed.


Lemma downstream_calls_only input e w : calls_only w (downstream input e w).2.
Proof.
  assert (Hgen : ∀ text w0, calls_only w0 (generation text e w0).2).
  { intros text w0. unfold generation.
    pose proof (generateResponse_provider_only text e w0) as H.
    by destruct (GeminiService.generateResponse text e w0) as [[? | ?] ?]. }
  destruct input as [audio | text]; simpl; [| apply Hgen].
  pose proof (transcribeAudio_provider_only audio e w) as H.
  destruct (WhisperService.transcribeAudio audio e w) as [[t | err] w']; simpl in *; [| done].
  eapply calls_only_trans; [done | apply Hgen].
Qed.

(** *** Validation *)

Lemma is_token_char_spec c : is_token_char c = true ↔ token_char c.
Proof.
  unfold is_token_char, token_char, in_range.
  rewrite !orb_true_iff, !andb_true_iff, !N.leb_le, !N.eqb_eq. tauto.
Qed.

Lemma token_regex_test_spec s :
  token_regex_test s = true ↔ s ≠ [] ∧ Forall token_char s.
Proof.
  unfold token_regex_test.
  rewrite andb_true_iff, negb_true_iff, bool_decide_eq_false, forallb_forall, Forall_forall.
  split; intros [Hne Hall]; (split; [done |]); intros c Hc.
  - apply is_token_char_spec, Hall. by apply list_elem_of_In.
  - apply is_token_char_spec, Hall. by apply list_elem_of_In.
Qed.

Lemma is_base64_char_spec c : WhisperService.is_base64_char c = true ↔ base64_char c.
Proof.
  unfold WhisperService.is_base64_char, base64_char, in_range.
  rewrite !orb_true_iff, !andb_true_iff, !N.leb_le, !N.eqb_eq. tauto.
Qed.

Lemma drop_while_app p (core pad : jstring) :
  Forall (λ c, p c = true) core → drop_while p pad = pad →
  drop_while p (core ++ pad) = pad.
Proof.
  intros Hcore Hpad. induction Hcore as [| c core Hc _ IH]; simpl; [done |].
  by rewrite Hc.
Qed.

Lemma base64Regex_test_shaped a :
  base64_shaped a → WhisperService.base64Regex_test a = true.
Proof.
  intros (core & pad & -> & Hcore & Hpad). unfold WhisperService.base64Regex_test.
  rewrite drop_while_app.
  - destruct Hpad as [-> | [-> | ->]]; reflexivity.
  - eapply Forall_impl; [done |]. intros c. apply is_base64_char_spec.
  - destruct Hpad as [-> | [-> | ->]]; reflexivity.
Qed.

Lemma truthy_VStr s : s ≠ [] → truthy (VStr s) = true.
Proof. intros Hs. simpl. by rewrite bool_decide_eq_false_2. Qed.

Lemma body_prop_lookup props k v :
  props !! k = Some v → QueryApi.body_prop (QueryApi.BodyObject props) k = v.
Proof. intros H. unfold QueryApi.body_prop, prop. by rewrite H. Qed.

Lemma validateAudioData_ok a :
  a ≠ [] → (N.of_nat (length a) ≤ 204800)%N → base64_shaped a →
  WhisperService.validateAudioData (VStr a) = WhisperService.Validation true [].
Proof.
  intros Hne Hsize Hshape. unfold WhisperService.validateAudioData.
  rewrite truthy_VStr by done. simpl.
  unfold WhisperService.too_large, WhisperService.MAX_AUDIO_SIZE_BYTES.
  destruct (N.ltb_spec 204800 (N.of_nat (length a))) as [? | _]; [lia |].
  by rewrite base64Regex_test_shaped.
Qed.

Lemma validateRequest_acceptable b id :
  acceptable_body b id →
  str_of (QueryApi.body_prop b "request_id") = id ∧
  QueryApi.validateRequest b =
    QueryApi.Validation true []
      (Some (if truthy (QueryApi.body_prop b "audio")
             then QueryApi.audio_input else QueryApi.text_input)).
Proof.
  intros (props & -> & Hid & (Hne & Hlen & Hchars) & Hmode).
  unfold QueryApi.validateRequest.
  rewrite (body_prop_lookup _ _ _ Hid).
  split; [done |].
  rewrite truthy_VStr by done.
  change (str_of (VStr id)) with id.
  rewrite (proj2 (token_regex_test_spec id)) by done.
  destruct (Nat.ltb_spec 64 (length id)) as [? | _]; [lia |].
  change (QueryApi.not_an_object (QueryApi.BodyObject props)) with false.
  change (is_string (VStr id)) with true. cbn [negb orb].
  destruct Hmode as [(a & Ha & Hane & Hsize & Hshape) | (Hnoaudio & t & Ht & Htrim & Htlen)].
  - rewrite (body_prop_lookup _ _ _ Ha), truthy_VStr by done.
    by rewrite validateAudioData_ok.
  - change (QueryApi.body_prop (QueryApi.BodyObject props) "audio")
      with (prop props "audio").
    rewrite Hnoaudio, (body_prop_lookup _ _ _ Ht).
    assert (t ≠ []) as Htne by (intros ->; by apply Htrim).
    rewrite truthy_VStr by done.
    change (str_of (VStr t)) with t. change (is_string (VStr t)) with true.
    cbn [negb orb].
    rewrite bool_decide_eq_false_2 by done.
    destruct (Nat.ltb_spec 1000 (length t)) as [? | _]; [lia | done].
Qed.

(** *** The submit-query handler *)

Lemma bind_run {A B} (m : M A) (f : A → M B) e w :
  (m ≫= f) e w =
    match m e w with
    | (Ok a, w') => f a e w'
    | (Thrown err, w') => (Thrown err, w')
    end.
Proof. reflexivity. Qed.

Section QueryRuns.

(** The environment of the invocation; its database works. *)
Context (e : env) (Hdb : db_available e).

Lemma query_generate_step_run res id q tr w r w2 :
  generation q e w = (r, w2) →
  ∃ resp,
    QueryApi.generate_step res id q tr e w
      = (Ok resp, written w2 id (query_record r (now w2)))
    ∧ res_status resp = 200%Z
    ∧ body_field resp "success" = Some (VBool (query_success r))
    ∧ body_field resp "message" = Some (VStr (query_message r)).
Proof.
  intros Hgen. unfold generation in Hgen.
  unfold QueryApi.generate_step, try_catch. rewrite bind_run.
  destruct (GeminiService.generateResponse q e w) as [[ai | err] w3]; simplify_eq.
  - rewrite bind_run, saveResponse_run by apply Hdb.
    destruct (truthy tr); (eexists; split; [reflexivity |]); by vm_compute.
  - rewrite bind_run, saveErrorResponse_run by apply Hdb.
    eexists; split; [reflexivity |]; by vm_compute.
Qed.

Lemma query_handler_run req w id r w2 :
  method req = "POST" → acceptable_body (body req) id →
  downstream (submit_input (body req)) e (written w id (pending_record (now w))) = (r, w2) →
  ∃ resp,
    QueryApi.handler req e w = (Ok resp, written w2 id (query_record r (now w2)))
    ∧ res_status resp = 200%Z
    ∧ body_field resp "success" = Some (VBool (query_success r))
    ∧ body_field resp "message" = Some (VStr (query_message r)).
Proof.
  intros Hmethod Hbody Hdown.
  destruct (validateRequest_acceptable _ _ Hbody) as [Hid Hvalid].
  unfold QueryApi.handler. rewrite Hmethod.
  destruct (decide ("POST" = "OPTIONS")) as [? | _]; [done |].
  destruct (decide ("POST" ≠ "POST")) as [? | _]; [done |].
  unfold try_catch. rewrite Hvalid, Hid. cbn [QueryApi.valid QueryApi.inputType negb].
  rewrite bind_run, savePendingResponse_run by apply Hdb.
  rewrite bind_run. unfold submit_input in Hdown. unfold QueryApi.transcribe_step.
  destruct (truthy (QueryApi.body_prop (body req) "audio")).
  - simpl in Hdown. unfold try_catch. rewrite bind_run.
    destruct (WhisperService.transcribeAudio _ e _) as [[t | err] w1].
    + destruct (query_generate_step_run QueryApi.cors_headers id t (VStr t) w1 r w2 Hdown)
        as (resp & Hrun & Hrest).
      exists resp. unfold mret, M_ret. cbn beta iota. by rewrite Hrun.
    + simplify_eq. rewrite bind_run, saveErrorResponse_run by apply Hdb.
      eexists; split; [reflexivity |]; by vm_compute.
  - simpl in Hdown.
    destruct (query_generate_step_run QueryApi.cors_headers id _ VNull _ r w2 Hdown)
      as (resp & Hrun & Hrest).
    exists resp. unfold mret, M_ret. cbn beta iota. by rewrite Hrun.
Qed.

End QueryRuns.

End Runs.

(** ** The binary audio handler *)

Section AudioRuns.

Import DbService.

Implicit Types (w : world) (id : jstring).

Context (e : env) (Hdb : db_available e).

Lemma audio_generate_step_run res id t w r w2 :
  generation t e w = (r, w2) →
  ∃ resp,
    AudioApi.generate_step res id t e w
      = (Ok resp, written w2 id (audio_record r (now w2)))
    ∧ res_status resp = 200%Z.
Proof.
  intros Hgen. unfold generation in Hgen.
  unfold AudioApi.generate_step, try_catch. rewrite bind_run.
  destruct (GeminiService.generateResponse t e w) as [[ai | err] w3]; simplify_eq.
  - rewrite bind_run, saveResponse_run by apply Hdb. by eexists.
  - rewrite bind_run, saveErrorResponse_run by apply Hdb. by eexists.
Qed.

Lemma audio_handler_run req w id audioBuffer r w2 :
  method req = "POST" → acceptable_upload req id audioBuffer →
  downstream (inl (VStr (AudioApi.toString_base64 audioBuffer))) e
    (written w id (pending_record (now w))) = (r, w2) →
  ∃ resp,
    AudioApi.handler req e w = (Ok resp, written w2 id (audio_record r (now w2)))
    ∧ res_status resp = 200%Z.
Proof.
  intros Hmethod (Hhdr & Hne & Hchars & Hbody & Hbuf & Hsize) Hdown.
  unfold AudioApi.handler. rewrite Hmethod.
  destruct (decide ("POST" = "OPTIONS")) as [? | _]; [done |].
  destruct (decide ("POST" ≠ "POST")) as [? | _]; [done |].
  unfold try_catch, prop. cbv zeta. rewrite Hhdr, Hbody.
  change (default VUndefined (Some (VStr id))) with (VStr id). cbn [str_of is_string].
  rewrite truthy_VStr by done.
  rewrite (proj2 (token_regex_test_spec id)) by done. cbn [negb orb].
  rewrite bool_decide_eq_false_2 by done.
  unfold AudioApi.MAX_AUDIO_SIZE.
  destruct (N.ltb_spec 2097152 (N.of_nat (length audioBuffer))) as [? | _]; [lia |].
  rewrite bind_run, savePendingResponse_run by apply Hdb.
  rewrite bind_run. unfold AudioApi.transcribe_step, try_catch. rewrite bind_run.
  simpl in Hdown.
  destruct (WhisperService.transcribeAudio _ e _) as [[t | err] w1].
  - destruct (audio_generate_step_run AudioApi.cors_headers id t w1 r w2 Hdown)
      as (resp & Hrun & Hrest).
    exists resp. unfold mret, M_ret. cbn beta iota. by rewrite Hrun.
  - simplify_eq. rewrite bind_run, saveErrorResponse_run by apply Hdb. by eexists.
Qed.

End AudioRuns.

(** ** The poll and delete handler *)

Section ResponseRuns.

Import DbService.

Implicit Types (e : env) (w : world) (id : jstring).

(** The world after a successful read of the record of [id]. *)
Lemma ref_once_run e w path :
  db_fault e (db_ops w) = None →
  ref_once path e w =
    (Ok (db w !! path),
     World (db w) (now w) (log w ++ [DbOnce path]) (S (db_ops w))).
Proof. intros Hup. unfold ref_once, firebase. by rewrite Hup. Qed.

Lemma ref_remove_run e w path :
  db_fault e (db_ops w) = None →
  ref_remove path e w =
    (Ok (), World (delete path (db w)) (now w) (log w ++ [DbRemove path]) (S (db_ops w))).
Proof. intros Hup. unfold ref_remove, firebase. by rewrite Hup. Qed.

Lemma validateRequestId_valid id :
  valid_id id →
  ResponseApi.validateRequestId (VStr id) = ResponseApi.Validation true [].
Proof.
  intros (Hne & Hlen & Hchars). unfold ResponseApi.validateRequestId.
  rewrite truthy_VStr by done. cbn [is_string str_of negb orb].
  rewrite (proj2 (token_regex_test_spec id)) by done. cbn [negb].
  destruct (Nat.ltb_spec 64 (length id)) as [? | _]; [lia | done].
Qed.

Lemma handler_get {B} (req : request B) e w id :
  method req = "GET" → query req !! "request_id" = Some (VStr id) → valid_id id →
  ResponseApi.handler req e w = ResponseApi.handleGet ResponseApi.cors_headers id e w.
Proof.
  intros Hmethod Hq Hid. unfold ResponseApi.handler. rewrite Hmethod.
  destruct (decide ("GET" = "OPTIONS")) as [? | _]; [done |].
  destruct (decide ("GET" ≠ "GET" ∧ "GET" ≠ "DELETE")) as [[? _] | _]; [done |].
  unfold prop. cbv zeta. rewrite Hq.
  change (default VUndefined (Some (VStr id))) with (VStr id).
  rewrite validateRequestId_valid by done. cbn [ResponseApi.valid negb str_of].
  destruct (decide ("GET" = "GET")) as [_ | ?]; done.
Qed.

Lemma handler_delete {B} (req : request B) e w id :
  method req = "DELETE" → query req !! "request_id" = Some (VStr id) → valid_id id →
  ResponseApi.handler req e w = ResponseApi.handleDelete ResponseApi.cors_headers id e w.
Proof.
  intros Hmethod Hq Hid. unfold ResponseApi.handler. rewrite Hmethod.
  destruct (decide ("DELETE" = "OPTIONS")) as [? | _]; [done |].
  destruct (decide ("DELETE" ≠ "GET" ∧ "DELETE" ≠ "DELETE")) as [[_ ?] | _]; [done |].
  unfold prop. cbv zeta. rewrite Hq.
  change (default VUndefined (Some (VStr id))) with (VStr id).
  rewrite validateRequestId_valid by done. cbn [ResponseApi.valid negb str_of].
  destruct (decide ("DELETE" = "GET")) as [? | _]; done.
Qed.

Lemma getResponse_run e w id :
  db_fault e (db_ops w) = None →
  getResponse id e w =
    (Ok (response_object id <$> record_of w id),
     World (db w) (now w) (log w ++ [DbOnce (getRef id)]) (S (db_ops w))).
Proof.
  intros Hup. unfold getResponse, record_of. rewrite bind_run, ref_once_run by done.
  by destruct (db w !! getRef id).
Qed.

Lemma response_object_prop id data k :
  k = "text" ∨ k = "status" ∨ k = "timestamp" →
  prop (response_object id data) k = prop data k.
Proof. intros [-> | [-> | ->]]; reflexivity. Qed.

Section Available.

Context (e : env) (Hdb : db_available e).

Lemma handleGet_run res w id :
  ∃ resp w',
    ResponseApi.handleGet res id e w = (Ok resp, w') ∧ db w' = db w ∧
    match record_of w id with
    | None => res_status resp = 404%Z
    | Some rec =>
        (rec !! "status" = Some (VStr (js "pending")) → res_status resp = 202%Z) ∧
        (rec !! "status" = Some (VStr (js "error")) →
           res_status resp = 200%Z
           ∧ body_field resp "status" = Some (VStr (js "error"))
           ∧ body_field resp "text" = Some (prop rec "text")) ∧
        (rec !! "status" = Some (VStr (js "completed")) →
           res_status resp = 200%Z
           ∧ body_field resp "status" = Some (VStr (js "completed"))
           ∧ body_field resp "text" = Some (prop rec "text")
           ∧ body_field resp "timestamp" = Some (prop rec "timestamp"))
    end.
Proof.
  unfold ResponseApi.handleGet, try_catch.
  rewrite bind_run, getResponse_run by apply Hdb.
  destruct (record_of w id) as [rec |]; cbn [fmap option_fmap option_map].
  - rewrite !response_object_prop by auto.
    destruct (str_eq (prop rec "status") ResponseStatus.PENDING) eqn:Hp;
      [| destruct (str_eq (prop rec "status") ResponseStatus.ERROR) eqn:Herr].
    all: eexists _, _; (split; [reflexivity |]); (split; [reflexivity |]).
    all: unfold prop in Hp; try unfold prop in Herr.
    all: (split; [| split]); intros Hst; rewrite Hst in *; by vm_compute.
  - eexists _, _. repeat split; reflexivity.
Qed.

Lemma handleDelete_run res w id :
  ∃ resp w',
    ResponseApi.handleDelete res id e w = (Ok resp, w') ∧
    match record_of w id with
    | Some _ =>
        res_status resp = 200%Z ∧ body_field resp "success" = Some (VBool true)
        ∧ db w' = delete (getRef id) (db w)
    | None => res_status resp = 404%Z ∧ db w' = db w
    end.
Proof.
  unfold ResponseApi.handleDelete, try_catch, deleteResponse, record_of.
  rewrite !bind_run, ref_once_run by apply Hdb.
  destruct (db w !! getRef id) as [rec |] eqn:Hrec.
  - rewrite bind_run, ref_remove_run by apply Hdb.
    eexists _, _. repeat split; reflexivity.
  - eexists _, _. repeat split; reflexivity.
Qed.

End Available.

End ResponseRuns.

(** * The claims *)

Import DbService GeminiService.

Implicit Types (e : env) (w : world) (id : jstring).

(** ** Truncation of long answers *)

Lemma is_sentence_end_spec c : is_sentence_end c = true ↔ sentence_end c.
Proof.
  unfold is_sentence_end, sentence_end.
  rewrite !orb_true_iff, !N.eqb_eq. tauto.
Qed.

Lemma no_sentence_end_in_spec s j c :
  no_sentence_end_in s = true → s !! j = Some c → ¬ sentence_end c.
Proof.
  unfold no_sentence_end_in. rewrite forallb_forall. intros Hall Hj Hc.
  apply list_elem_of_lookup_2, list_elem_of_In, Hall in Hj.
  apply is_sentence_end_spec in Hc. by rewrite Hc in Hj.
Qed.

Lemma last_sentence_end_b_sound s i :
  last_sentence_end_b s i = true → last_sentence_end s i.
Proof.
  unfold last_sentence_end_b. destruct (s !! i) as [c |] eqn:Hi; [| done].
  rewrite andb_true_iff. intros [Hc Hrest]. split.
  - exists c. split; [done |]. by apply is_sentence_end_spec.
  - intros j d Hj Hd. apply (no_sentence_end_in_spec _ (j - S i) d Hrest).
    rewrite lookup_drop. by replace (S i + (j - S i))%nat with j by lia.
Qed.

Lemma no_sentence_end_past_b_sound s m :
  no_sentence_end_in (drop (S m) s) = true → no_sentence_end_past s m.
Proof.
  intros Hrest j d Hj Hd. apply (no_sentence_end_in_spec _ (j - S m) d Hrest).
  rewrite lookup_drop. by replace (S m + (j - S m))%nat with j by lia.
Qed.

(** Two long answers: one with a full stop at index 600, one without any
    punctuation. *)
Lemma cleanResponse_truncation_witness :
  let text1 := replicate 600 (ch "a") ++ js "." ++ replicate 600 (ch "b") in
  let text2 := replicate 1200 (ch "a") in
  cleanResponse text1 = take 601 (take 1000 (strip_markdown text1)) ∧
  cleanResponse text2 = take 1000 (strip_markdown text2) ++ js "...".
Proof.
  intros text1 text2. split.
  - apply (proj1 (cleanResponse_truncation text1 ltac:(vm_compute; lia)) 600%nat).
    + apply last_sentence_end_b_sound. vm_compute. reflexivity.
    + lia.
  - apply (proj2 (cleanResponse_truncation text2 ltac:(vm_compute; lia))).
    apply no_sentence_end_past_b_sound. vm_compute. reflexivity.
Defined.

(** C3. The answer that [generateResponse] returns can be longer than the
    maximum response length: when Gemini answers 1001 letters without a
    sentence end, the answer is cut to 1000 characters and the ellipsis is
    appended, which makes 1003 characters. *)
Theorem generateResponse_exceeds_max_length :
  match generateResponse (js "tell me everything") rambling_env fresh_world with
  | (Ok answer, _) =>
      answer = replicate 1000 (ch "a") ++ js "..." ∧ length answer = 1003%nat
  | (Thrown _, _) => False
  end.
Proof. vm_compute. split; reflexivity. Qed.

(** ** Submissions *)

Lemma status_of_written w id rec s :
  rec !! "status" = Some (VStr s) → status_of (written w id rec) id = Some (VStr s).
Proof.
  intros Hstatus. unfold status_of, field_of.
  rewrite (record_of_written w id rec s Hstatus). cbn [mbind option_bind].
  by apply lookup_stored.
Qed.

Lemma query_record_status r t :
  query_record r t !! "status"
    = Some (VStr (match r with Answer _ => js "completed" | _ => js "error" end)).
Proof. by destruct r. Qed.

Lemma stored_query_record r t : stored (query_record r t) = query_record r t.
Proof. destruct r; cbn [query_record audio_record]; auto using stored_completed_record, stored_error_record. Qed.

Lemma stored_audio_record r t : stored (audio_record r t) = audio_record r t.
Proof. destruct r; cbn [query_record audio_record]; auto using stored_completed_record, stored_error_record. Qed.

Lemma insert_put path (u v : jsobject) d : <[path := v]> (put path u d) = <[path := v]> d.
Proof.
  unfold put. destruct (decide (u = ∅)); [apply insert_delete_eq | apply insert_insert_eq].
Qed.

Lemma pending_world e w id :
  db_available e →
  after (savePendingResponse id) e w = written w id (pending_record (now w)).
Proof. intros Hdb. unfold after. by rewrite savePendingResponse_run. Qed.

Lemma written_twice w1 w2 id rec1 rec2 s :
  rec2 !! "status" = Some (VStr s) → stored rec2 = rec2 →
  calls_only (written w1 id rec1) w2 →
  ∃ calls,
    log (written w2 id rec2)
      = log w1 ++ [DbSet (getRef id) rec1] ++ calls ++ [DbSet (getRef id) rec2]
    ∧ Forall (λ ev, is_provider_call ev = true) calls
    ∧ db (written w2 id rec2) = <[getRef id := rec2]> (db w1).
Proof.
  intros Hstatus Hstored (Hdb & _ & calls & Hlog & Hcalls). exists calls.
  rewrite (db_written w2 id rec2 s Hstatus), Hstored, Hdb.
  unfold written in *. cbn [log db] in *. rewrite Hlog.
  split; [by rewrite <- !app_assoc |]. split; [done |].
  apply insert_put.
Qed.

(** C1 (amended). A POST to the submit-query handler whose body carries an
    identifier of the grammar and either a valid audio payload or, without
    audio, a text that is not blank and has at most 1000 characters, while
    the database works: the handler writes the record of the identifier as
    pending before it calls any provider, calls only providers after that,
    and then writes the record once more, as completed with the answer when
    the downstream step succeeds and as error when the transcription or the
    generation fails. These are its only two writes. *)
Theorem submit_query_transitions (req : request QueryApi.json_body) e w id :
  method req = "POST" → acceptable_body (body req) id → db_available e →
  let pending := pending_record (now w) in
  let w1 := after (savePendingResponse id) e w in
  let run := downstream (submit_input (body req)) e w1 in
  let final := query_record run.1 (now run.2) in
  ∃ resp w' calls,
    QueryApi.handler req e w = (Ok resp, w')
    ∧ log w' = log w ++ [DbSet (getRef id) pending] ++ calls ++ [DbSet (getRef id) final]
    ∧ Forall (λ ev, is_provider_call ev = true) calls
    ∧ db w' = <[getRef id := final]> (db w)
    ∧ status_of w1 id = Some (VStr (js "pending"))
    ∧ status_of w' id
        = Some (VStr (match run.1 with Answer _ => js "completed" | _ => js "error" end)).
Proof.
  intros Hmethod Hbody Hdb pending. cbv zeta.
  rewrite (pending_world e w id Hdb). fold pending.
  set (run := downstream (submit_input (body req)) e (written w id pending)).
  set (final := query_record run.1 (now run.2)).
  destruct (query_handler_run e Hdb req w id run.1 run.2 Hmethod Hbody)
    as (resp & Hrun & _); [apply surjective_pairing |].
  destruct (written_twice w run.2 id pending final _ (query_record_status _ _)
              (stored_query_record _ _)) as (calls & Hlog & Hcalls & Hfinal).
  { apply downstream_calls_only. }
  exists resp, (written run.2 id final), calls.
  split; [done |]. split; [done |]. split; [done |]. split; [done |].
  split; [by apply status_of_written |].
  apply status_of_written, query_record_status.
Qed.

(** The requests and environments of the examples satisfy the hypotheses. *)

Lemma example_id_valid : valid_id (js "esp32-001").
Proof.
  split; [done |]. split; [vm_compute; lia |].
  by apply token_regex_test_spec.
Qed.

Lemma text_request_acceptable : acceptable_body (body text_request) (js "esp32-001").
Proof.
  eexists. split; [reflexivity |]. split; [reflexivity |].
  split; [apply example_id_valid |]. right. split; [reflexivity |].
  exists (js "what time is it"). split; [reflexivity |]. split; [done |].
  vm_compute. lia.
Qed.

Lemma audio_request_acceptable : acceptable_body (body audio_request) (js "esp32-001").
Proof.
  eexists. split; [reflexivity |]. split; [reflexivity |].
  split; [apply example_id_valid |]. left.
  exists (js "UklGRg=="). split; [reflexivity |]. split; [done |].
  split; [vm_compute; discriminate |].
  exists (js "UklGRg"), (js "=="). split; [reflexivity |].
  split; [| by right; right].
  rewrite Forall_forall. intros c Hc. apply is_base64_char_spec.
  revert c Hc. apply Forall_forall. by repeat constructor.
Qed.

Lemma upload_request_acceptable :
  acceptable_upload upload_request (js "esp32-001")
    [Byte.x52; Byte.x49; Byte.x46; Byte.x46].
Proof.
  split; [reflexivity |]. split; [done |].
  split; [apply example_id_valid |]. split; [reflexivity |]. split; [done |].
  vm_compute. discriminate.
Qed.

Lemma answering_env_available : db_available answering_env.
Proof. intros n. reflexivity. Qed.

Lemma failing_env_available : db_available failing_env.
Proof. intros n. reflexivity. Qed.

(** A text submission that Gemini answers: the record ends completed. *)
Lemma submit_query_transitions_witness :
  method text_request = "POST"
  ∧ acceptable_body (body text_request) (js "esp32-001")
  ∧ db_available answering_env
  ∧ ∃ resp w',
      QueryApi.handler text_request answering_env fresh_world = (Ok resp, w')
      ∧ filter (λ ev, is_write ev = true) (log w')
          = [ DbSet (getRef (js "esp32-001")) (pending_record 1000);
              DbSet (getRef (js "esp32-001")) (completed_record (js "It is noon.") 2200) ]
      ∧ status_of w' (js "esp32-001") = Some (VStr (js "completed")).
Proof.
  split; [reflexivity |]. split; [apply text_request_acceptable |].
  split; [apply answering_env_available |].
  destruct (submit_query_transitions text_request answering_env fresh_world (js "esp32-001")
              eq_refl text_request_acceptable answering_env_available)
    as (resp & w' & calls & Hrun & Hlog & Hcalls & Hdb & Hpending & Hfinal).
  exists resp, w'. split; [exact Hrun |]. split; [| exact Hfinal].
  injection Hrun as _ <-. vm_compute. reflexivity.
Defined.

(** The claim as stated fails on a text of three spaces: the identifier is
    of the grammar and the text has at most 1000 characters, and yet the
    handler answers 400 and writes nothing. *)
Lemma blank_text_is_refused_unwritten :
  valid_id (js "esp32-001")
  ∧ QueryApi.body_prop (body blank_request) "text" = VStr (js "   ")
  ∧ (length (js "   ") ≤ 1000)%nat
  ∧ sent_status (QueryApi.handler blank_request answering_env fresh_world) = Some 400%Z
  ∧ after (QueryApi.handler blank_request) answering_env fresh_world = fresh_world
  ∧ log (after (QueryApi.handler blank_request) answering_env fresh_world) = [].
Proof.
  split; [apply example_id_valid |]. split; [reflexivity |].
  split; [vm_compute; lia |].
  split; [vm_compute; reflexivity |]. split; vm_compute; reflexivity.
Qed.

(** C4. When the downstream AI step (the transcription or the generation)
    fails after the pending record was written, the submit-query handler
    and the binary audio handler persist an error record for the
    identifier, which is the state the invocation leaves, and answer with
    HTTP status 200. The database is taken to work: its own failures are
    answered 500, see [pending_write_failure]. *)
Theorem downstream_failure_recorded e w id :
  db_available e →
  let w1 := after (savePendingResponse id) e w in
  (∀ req : request QueryApi.json_body,
     method req = "POST" → acceptable_body (body req) id →
     failed (downstream (submit_input (body req)) e w1).1 →
     ∃ resp w' msg t,
       QueryApi.handler req e w = (Ok resp, w')
       ∧ res_status resp = 200%Z
       ∧ record_of w' id = Some (error_record msg t)
       ∧ status_of w' id = Some (VStr (js "error")))
  ∧
  (∀ (req : request (option (list Byte.byte))) audioBuffer,
     method req = "POST" → acceptable_upload req id audioBuffer →
     failed (downstream (inl (VStr (AudioApi.toString_base64 audioBuffer))) e w1).1 →
     ∃ resp w' msg t,
       AudioApi.handler req e w = (Ok resp, w')
       ∧ res_status resp = 200%Z
       ∧ record_of w' id = Some (error_record msg t)
       ∧ status_of w' id = Some (VStr (js "error"))).
Proof.
  intros Hdb. cbv zeta. rewrite (pending_world e w id Hdb).
  set (w1 := written w id (pending_record (now w))). split.
  - intros req Hmethod Hbody Hfailed.
    destruct (downstream (submit_input (body req)) e w1) as [r w2] eqn:Hdown.
    destruct (query_handler_run e Hdb req w id r w2 Hmethod Hbody Hdown)
      as (resp & Hrun & Hstatus & _).
    simpl in Hfailed.
    destruct r as [answer | err | err]; [done | |].
    all: eexists resp, _, _, _; split; [exact Hrun |]; split; [exact Hstatus |].
    all: split; [apply record_of_error | by apply status_of_written].
  - intros req audioBuffer Hmethod Hupload Hfailed.
    destruct (downstream (inl (VStr (AudioApi.toString_base64 audioBuffer))) e w1)
      as [r w2] eqn:Hdown.
    destruct (audio_handler_run e Hdb req w id audioBuffer r w2 Hmethod Hupload Hdown)
      as (resp & Hrun & Hstatus).
    simpl in Hfailed.
    destruct r as [answer | err | err]; [done | |].
    all: eexists resp, _, _, _; split; [exact Hrun |]; split; [exact Hstatus |].
    all: split; [apply record_of_error | by apply status_of_written].
Qed.

(** Gemini is out of quota for a text submission, and Whisper refuses the
    format of an upload. *)
Lemma downstream_failure_recorded_witness :
  db_available failing_env
  ∧ (method text_request = "POST"
     ∧ acceptable_body (body text_request) (js "esp32-001")
     ∧ sent_status (QueryApi.handler text_request failing_env fresh_world) = Some 200%Z
     ∧ status_of (after (QueryApi.handler text_request) failing_env fresh_world)
         (js "esp32-001") = Some (VStr (js "error")))
  ∧ (method upload_request = "POST"
     ∧ acceptable_upload upload_request (js "esp32-001")
         [Byte.x52; Byte.x49; Byte.x46; Byte.x46]
     ∧ sent_status (AudioApi.handler upload_request failing_env fresh_world) = Some 200%Z
     ∧ status_of (after (AudioApi.handler upload_request) failing_env fresh_world)
         (js "esp32-001") = Some (VStr (js "error"))).
Proof.
  pose proof (downstream_failure_recorded failing_env fresh_world (js "esp32-001")
                failing_env_available) as [Hquery Haudio].
  split; [apply failing_env_available |]. split.
  - split; [reflexivity |]. split; [apply text_request_acceptable |].
    destruct (Hquery text_request eq_refl text_request_acceptable)
      as (resp & w' & msg & t & Hrun & Hstatus & _ & Herror).
    { vm_compute. exact I. }
    unfold sent_status, after. rewrite Hrun. simpl. by rewrite Hstatus.
  - split; [reflexivity |]. split; [apply upload_request_acceptable |].
    destruct (Haudio upload_request _ eq_refl upload_request_acceptable)
      as (resp & w' & msg & t & Hrun & Hstatus & _ & Herror).
    { vm_compute. exact I. }
    unfold sent_status, after. rewrite Hrun. simpl. by rewrite Hstatus.
Defined.

(** C10. On the submit-query endpoint the two downstream failures answer
    HTTP 200 with different success flags: a failed transcription gives
    success false and the message 'Audio transcription failed', a failed
    generation gives success true and the message 'Query received but AI
    processing failed'; both leave an error record (the database working). *)
Theorem query_failure_success_flags (req : request QueryApi.json_body) e w id :
  method req = "POST" → acceptable_body (body req) id → db_available e →
  let run := downstream (submit_input (body req)) e (after (savePendingResponse id) e w) in
  ∃ resp w',
    QueryApi.handler req e w = (Ok resp, w')
    ∧ (∀ err, run.1 = TranscriptionFailure err →
         res_status resp = 200%Z
         ∧ body_field resp "success" = Some (VBool false)
         ∧ body_field resp "message" = Some (VStr (js "Audio transcription failed"))
         ∧ status_of w' id = Some (VStr (js "error")))
    ∧ (∀ err, run.1 = GenerationFailure err →
         res_status resp = 200%Z
         ∧ body_field resp "success" = Some (VBool true)
         ∧ body_field resp "message"
             = Some (VStr (js "Query received but AI processing failed"))
         ∧ status_of w' id = Some (VStr (js "error"))).
Proof.
  intros Hmethod Hbody Hdb. cbv zeta. rewrite (pending_world e w id Hdb).
  set (run := downstream (submit_input (body req)) e
                (written w id (pending_record (now w)))).
  destruct (query_handler_run e Hdb req w id run.1 run.2 Hmethod Hbody)
    as (resp & Hrun & Hstatus & Hsuccess & Hmessage); [apply surjective_pairing |].
  exists resp, (written run.2 id (query_record run.1 (now run.2))).
  split; [exact Hrun |].
  rewrite (status_of_written _ _ _ _ (query_record_status _ _)).
  split; intros err Herr; rewrite Herr in *; done.
Qed.

(** Whisper refuses the format of an audio submission; Gemini is out of
    quota for a text submission. *)
Lemma query_failure_success_flags_witness :
  (method audio_request = "POST"
   ∧ acceptable_body (body audio_request) (js "esp32-001")
   ∧ db_available failing_env
   ∧ ∃ resp w',
       QueryApi.handler audio_request failing_env fresh_world = (Ok resp, w')
       ∧ res_status resp = 200%Z
       ∧ body_field resp "success" = Some (VBool false)
       ∧ status_of w' (js "esp32-001") = Some (VStr (js "error")))
  ∧ (method text_request = "POST"
     ∧ acceptable_body (body text_request) (js "esp32-001")
     ∧ ∃ resp w',
         QueryApi.handler text_request failing_env fresh_world = (Ok resp, w')
         ∧ res_status resp = 200%Z
         ∧ body_field resp "success" = Some (VBool true)
         ∧ status_of w' (js "esp32-001") = Some (VStr (js "error"))).
Proof.
  split.
  - split; [reflexivity |]. split; [apply audio_request_acceptable |].
    split; [apply failing_env_available |].
    destruct (query_failure_success_flags audio_request failing_env fresh_world
                (js "esp32-001") eq_refl audio_request_acceptable failing_env_available)
      as (resp & w' & Hrun & Htranscription & _).
    exists resp, w'. split; [exact Hrun |].
    destruct (Htranscription
                (new_Error (js "Invalid audio format. Please use WAV format.")))
      as (H1 & H2 & _ & H4); [vm_compute; reflexivity |].
    by repeat split.
  - split; [reflexivity |]. split; [apply text_request_acceptable |].
    destruct (query_failure_success_flags text_request failing_env fresh_world
                (js "esp32-001") eq_refl text_request_acceptable failing_env_available)
      as (resp & w' & Hrun & _ & Hgeneration).
    exists resp, w'. split; [exact Hrun |].
    destruct (Hgeneration
                (new_Error (js "AI service rate limit reached. Please wait a moment.")))
      as (H1 & H2 & _ & H4); [vm_compute; reflexivity |].
    by repeat split.
Defined.

(** C5. A POST to the submit-query handler whose request_id has a
    character outside [A-Za-z0-9_-] is answered 400 with success false, and
    the world is left as it was: nothing was written to the database and no
    provider was called. *)
Theorem invalid_request_id_rejected (req : request QueryApi.json_body) e w props id c :
  method req = "POST" → body req = QueryApi.BodyObject props →
  props !! "request_id" = Some (VStr id) →
  c ∈ id → ¬ token_char c →
  ∃ resp,
    QueryApi.handler req e w = (Ok resp, w)
    ∧ res_status resp = 400%Z
    ∧ body_field resp "success" = Some (VBool false).
Proof.
  intros Hmethod Hbody Hid Hc Hbad.
  assert (id ≠ []) as Hne by (intros ->; by apply not_elem_of_nil in Hc).
  assert (token_regex_test id = false) as Htest.
  { apply not_true_is_false. rewrite token_regex_test_spec. intros [_ Hall].
    rewrite Forall_forall in Hall. by apply Hbad, Hall. }
  unfold QueryApi.handler. rewrite Hmethod.
  destruct (decide ("POST" = "OPTIONS")) as [? | _]; [done |].
  destruct (decide ("POST" ≠ "POST")) as [? | _]; [done |].
  unfold try_catch, QueryApi.validateRequest. rewrite Hbody.
  rewrite (body_prop_lookup _ _ _ Hid), truthy_VStr by done.
  change (str_of (VStr id)) with id. rewrite Htest.
  eexists. split; [reflexivity |]. by vm_compute.
Qed.

(** The request of the specification: request_id = "../etc". *)
Lemma invalid_request_id_rejected_witness :
  method dotdot_request = "POST"
  ∧ ch "." ∈ js "../etc" ∧ ¬ token_char (ch ".")
  ∧ ∃ resp,
      QueryApi.handler dotdot_request answering_env fresh_world = (Ok resp, fresh_world)
      ∧ res_status resp = 400%Z
      ∧ body_field resp "success" = Some (VBool false).
Proof.
  assert (ch "." ∈ js "../etc") as Hin by (vm_compute; apply list_elem_of_here).
  assert (¬ token_char (ch ".")) as Hbad.
  { rewrite <- is_token_char_spec. vm_compute. discriminate. }
  split; [reflexivity |]. split; [exact Hin |]. split; [exact Hbad |].
  exact (invalid_request_id_rejected dotdot_request answering_env fresh_world _
           (js "../etc") (ch ".") eq_refl eq_refl eq_refl Hin Hbad).
Defined.

(** ** Polling and deleting *)

(** C6. For a valid identifier and a working database, GET answers 404
    when no record exists, 202 when the record is pending, 200 with the
    stored error text when its status is error, and 200 with the stored
    answer and timestamp when it is completed, without changing the
    database; DELETE answers 200 and removes the record when one existed,
    and 404 when none did. *)
Theorem poll_and_delete_responses {B} (req : request B) e w id :
  query req !! "request_id" = Some (VStr id) → valid_id id → db_available e →
  (method req = "GET" →
     ∃ resp w',
       ResponseApi.handler req e w = (Ok resp, w') ∧ db w' = db w ∧
       match record_of w id with
       | None => res_status resp = 404%Z
       | Some rec =>
           (rec !! "status" = Some (VStr (js "pending")) → res_status resp = 202%Z) ∧
           (rec !! "status" = Some (VStr (js "error")) →
              res_status resp = 200%Z
              ∧ body_field resp "status" = Some (VStr (js "error"))
              ∧ body_field resp "text" = Some (prop rec "text")) ∧
           (rec !! "status" = Some (VStr (js "completed")) →
              res_status resp = 200%Z
              ∧ body_field resp "status" = Some (VStr (js "completed"))
              ∧ body_field resp "text" = Some (prop rec "text")
              ∧ body_field resp "timestamp" = Some (prop rec "timestamp"))
       end)
  ∧
  (method req = "DELETE" →
     ∃ resp w',
       ResponseApi.handler req e w = (Ok resp, w') ∧
       match record_of w id with
       | Some _ =>
           res_status resp = 200%Z ∧ body_field resp "success" = Some (VBool true)
           ∧ db w' = delete (getRef id) (db w)
       | None => res_status resp = 404%Z ∧ db w' = db w
       end).
Proof.
  intros Hq Hid Hdb. split; intros Hmethod.
  - rewrite (handler_get req e w id Hmethod Hq Hid). by apply handleGet_run.
  - rewrite (handler_delete req e w id Hmethod Hq Hid). by apply handleDelete_run.
Qed.

(** The record that the answered text submission leaves. *)
Lemma text_submission_record :
  record_of (after (QueryApi.handler text_request) answering_env fresh_world)
    (js "esp32-001") = Some (completed_record (js "It is noon.") 2200).
Proof. vm_compute. reflexivity. Qed.

(** Polling an identifier that has no record, polling it after a completed
    submission, and deleting it then. *)
Lemma poll_and_delete_responses_witness :
  let w := after (QueryApi.handler text_request) answering_env fresh_world in
  valid_id (js "esp32-001") ∧ db_available answering_env
  ∧ sent_status (ResponseApi.handler (response_request "GET") answering_env fresh_world)
      = Some 404%Z
  ∧ sent_status (ResponseApi.handler (response_request "GET") answering_env w)
      = Some 200%Z
  ∧ sent_status (ResponseApi.handler (response_request "DELETE") answering_env w)
      = Some 200%Z.
Proof.
  intros w. split; [apply example_id_valid |]. split; [apply answering_env_available |].
  split; [| split].
  - destruct (proj1 (poll_and_delete_responses (response_request "GET") answering_env
                       fresh_world (js "esp32-001") eq_refl example_id_valid
                       answering_env_available) eq_refl)
      as (resp & w' & Hrun & _ & Hcase).
    unfold sent_status. rewrite Hrun. simpl. f_equal. exact Hcase.
  - destruct (proj1 (poll_and_delete_responses (response_request "GET") answering_env
                       w (js "esp32-001") eq_refl example_id_valid
                       answering_env_available) eq_refl)
      as (resp & w' & Hrun & _ & Hcase).
    unfold sent_status. rewrite Hrun. simpl. f_equal.
    unfold w in Hcase. rewrite text_submission_record in Hcase.
    apply Hcase. reflexivity.
  - destruct (proj2 (poll_and_delete_responses (response_request "DELETE") answering_env
                       w (js "esp32-001") eq_refl example_id_valid
                       answering_env_available) eq_refl)
      as (resp & w' & Hrun & Hcase).
    unfold sent_status. rewrite Hrun. simpl. f_equal.
    unfold w in Hcase. rewrite text_submission_record in Hcase.
    apply Hcase.
Defined.

(** C7 (amended). When a record exists for an identifier of the grammar,
    of at most 64 characters, and the database works, a first DELETE
    answers 200 with success true and removes the record, and a second
    DELETE right after it answers 404. *)
Theorem delete_twice {B} (req : request B) e w id :
  method req = "DELETE" → query req !! "request_id" = Some (VStr id) →
  valid_id id → db_available e → is_Some (record_of w id) →
  ∃ resp1 w1 resp2 w2,
    ResponseApi.handler req e w = (Ok resp1, w1)
    ∧ res_status resp1 = 200%Z
    ∧ body_field resp1 "success" = Some (VBool true)
    ∧ record_of w1 id = None
    ∧ ResponseApi.handler req e w1 = (Ok resp2, w2)
    ∧ res_status resp2 = 404%Z.
Proof.
  intros Hmethod Hq Hid Hdb [rec Hrec].
  destruct (handleDelete_run e Hdb ResponseApi.cors_headers w id)
    as (resp1 & w1 & Hrun1 & Hcase1).
  rewrite Hrec in Hcase1. destruct Hcase1 as (Hstatus1 & Hsuccess1 & Hdb1).
  assert (record_of w1 id = None) as Hgone.
  { unfold record_of. rewrite Hdb1. apply lookup_delete_eq. }
  destruct (handleDelete_run e Hdb ResponseApi.cors_headers w1 id)
    as (resp2 & w2 & Hrun2 & Hcase2).
  rewrite Hgone in Hcase2. destruct Hcase2 as [Hstatus2 _].
  exists resp1, w1, resp2, w2.
  rewrite !(handler_delete req e _ id Hmethod Hq Hid).
  by repeat split.
Qed.

(** Deleting twice the record of a completed submission. *)
Lemma delete_twice_witness :
  let w := after (QueryApi.handler text_request) answering_env fresh_world in
  let w1 := after (ResponseApi.handler (response_request "DELETE")) answering_env w in
  is_Some (record_of w (js "esp32-001"))
  ∧ sent_status (ResponseApi.handler (response_request "DELETE") answering_env w)
      = Some 200%Z
  ∧ sent_status (ResponseApi.handler (response_request "DELETE") answering_env w1)
      = Some 404%Z.
Proof.
  intros w w1.
  assert (is_Some (record_of w (js "esp32-001"))) as Hsome.
  { exists (completed_record (js "It is noon.") 2200). apply text_submission_record. }
  split; [exact Hsome |].
  destruct (delete_twice (response_request "DELETE") answering_env w (js "esp32-001")
              eq_refl eq_refl example_id_valid answering_env_available Hsome)
    as (resp1 & w1' & resp2 & w2 & Hrun1 & Hstatus1 & _ & _ & Hrun2 & Hstatus2).
  assert (w1 = w1') as -> by (unfold w1, after; by rewrite Hrun1).
  unfold sent_status. rewrite Hrun1, Hrun2. cbn [fst].
  rewrite Hstatus1, Hstatus2. split; reflexivity.
Defined.

(** C7 as stated fails: a record exists under an identifier of 65
    characters once api/audio.js, which does not test the length of the
    identifier, has processed an upload for it; the DELETE for that
    identifier is answered 400 with success false, before the database is
    looked at, and the record stays. *)
Lemma delete_of_long_identifier_refused :
  let w := after (AudioApi.handler long_upload_request) answering_env fresh_world in
  sent_status (AudioApi.handler long_upload_request answering_env fresh_world) = Some 200%Z
  ∧ record_of w long_id = Some (completed_record (js "It is noon.") 2500)
  ∧ ∃ resp,
      ResponseApi.handler long_delete_request answering_env w = (Ok resp, w)
      ∧ res_status resp = 400%Z
      ∧ body_field resp "success" = Some (VBool false)
      ∧ body_field resp "error"
          = Some (VStr (js "request_id must be 64 characters or less")).
Proof.
  intros w. split; [vm_compute; reflexivity |]. split; [vm_compute; reflexivity |].
  eexists. split; [vm_compute; reflexivity |].
  split; [reflexivity |]. split; reflexivity.
Qed.

(** ** Timestamps *)

Lemma timestamp_of_written w id rec s t :
  rec !! "status" = Some (VStr s) → rec !! "timestamp" = Some (VNum t) →
  timestamp_of (written w id rec) id = Some (VNum t).
Proof.
  intros Hstatus Htime. unfold timestamp_of, field_of.
  rewrite (record_of_written w id rec s Hstatus). cbn [mbind option_bind].
  by apply lookup_stored.
Qed.

(** C8 (amended). Each of the three writes of a record (create-pending,
    set-completed, set-error), when the database accepts it, stores the
    time of that write as its timestamp, so the timestamp of a record is
    the time of its latest write; the acknowledgment (markAsConsumed) and
    the read leave it as it is. *)
Theorem timestamp_is_time_of_last_write e w id text :
  db_fault e (db_ops w) = None →
  timestamp_of (after (savePendingResponse id) e w) id = Some (VNum (now w))
  ∧ timestamp_of (after (saveResponse id text) e w) id = Some (VNum (now w))
  ∧ timestamp_of (after (saveErrorResponse id text) e w) id = Some (VNum (now w))
  ∧ timestamp_of (after (markAsConsumed id) e w) id = timestamp_of w id
  ∧ timestamp_of (after (getResponse id) e w) id = timestamp_of w id.
Proof.
  intros Hup. unfold after.
  rewrite savePendingResponse_run, saveResponse_run, saveErrorResponse_run by done.
  cbn [snd].
  split; [by eapply timestamp_of_written |]. split; [by eapply timestamp_of_written |].
  split; [by eapply timestamp_of_written |]. split.
  - unfold markAsConsumed, ref_update, firebase. rewrite bind_run. unfold Date_now.
    rewrite Hup. unfold timestamp_of, field_of, record_of. cbn [snd db].
    rewrite lookup_insert_eq. cbn [mbind option_bind].
    rewrite lookup_union_r by reflexivity.
    by destruct (db w !! getRef id).
  - by rewrite getResponse_run.
Qed.

Lemma timestamp_is_time_of_last_write_witness :
  db_fault answering_env (db_ops fresh_world) = None
  ∧ timestamp_of (after (saveResponse (js "esp32-001") (js "It is noon.")) answering_env
                    fresh_world) (js "esp32-001") = Some (VNum 1000).
Proof.
  split; [reflexivity |].
  exact (proj1 (proj2 (timestamp_is_time_of_last_write answering_env fresh_world
                         (js "esp32-001") (js "It is noon.") eq_refl))).
Defined.

(** The claim as stated fails: the pending write at time 1000 sets the
    timestamp to 1000, and the set-completed write (or the set-error
    write) 1200 ms later changes it to 2200. *)
Lemma timestamp_rewritten_by_later_write :
  let id := js "esp32-001" in
  let created := savePendingResponse id in
  let completed := savePendingResponse id;; sleep 1200;; saveResponse id (js "It is noon.") in
  let errored := savePendingResponse id;; sleep 1200;; saveErrorResponse id (js "no answer") in
  timestamp_of (after created answering_env fresh_world) id = Some (VNum 1000)
  ∧ timestamp_of (after completed answering_env fresh_world) id = Some (VNum 2200)
  ∧ timestamp_of (after errored answering_env fresh_world) id = Some (VNum 2200)
  ∧ timestamp_of (after (QueryApi.handler text_request) answering_env fresh_world) id
      = Some (VNum 2200).
Proof. vm_compute. repeat split; reflexivity. Qed.

(** ** HTTP methods *)

(** C9 (amended). The submit-query, binary audio and poll/delete handlers
    answer 405 to every method that is not theirs, OPTIONS apart, before
    they do anything else; the health check does not look at the method
    and answers 200 to every one. *)
Theorem disallowed_methods_rejected (r : api_request) e w :
  (is_health_check r = false →
   request_method r ∉ allowed_methods r → request_method r ≠ "OPTIONS" →
   ∃ resp, serve r e w = (Ok resp, w) ∧ res_status resp = 405%Z)
  ∧ (is_health_check r = true →
     ∃ resp, serve r e w = (Ok resp, w) ∧ res_status resp = 200%Z).
Proof.
  split.
  - intros Hkind Hmethod Hoptions.
    destruct r as [req | req | req | req]; [| | | done]; simpl in *.
    + unfold QueryApi.handler.
      destruct (decide (method req = "OPTIONS")) as [? | _]; [done |].
      destruct (decide (method req ≠ "POST")) as [_ | Hpost]; [by eexists |].
      exfalso. apply Hmethod. apply dec_stable in Hpost. rewrite Hpost. apply list_elem_of_here.
    + unfold AudioApi.handler.
      destruct (decide (method req = "OPTIONS")) as [? | _]; [done |].
      destruct (decide (method req ≠ "POST")) as [_ | Hpost]; [by eexists |].
      exfalso. apply Hmethod. apply dec_stable in Hpost. rewrite Hpost. apply list_elem_of_here.
    + unfold ResponseApi.handler.
      destruct (decide (method req = "OPTIONS")) as [? | _]; [done |].
      destruct (decide (method req ≠ "GET" ∧ method req ≠ "DELETE")) as [_ | Hnot];
        [by eexists |].
      exfalso. apply Hmethod.
      destruct (decide (method req = "GET")) as [-> | Hget]; [apply list_elem_of_here |].
      destruct (decide (method req = "DELETE")) as [-> | Hdelete];
        [apply list_elem_of_further, list_elem_of_here |].
      by destruct Hnot.
  - intros Hkind. destruct r as [req | req | req | req]; try done. simpl.
    by eexists.
Qed.

(** A PUT to the submit-query handler, and to the health check. *)
Lemma disallowed_methods_rejected_witness :
  let put := Request "PUT" ∅ ∅ () in
  let put_query := Request "PUT" ∅ ∅ (QueryApi.BodyValue VUndefined) in
  ("PUT" ∉ allowed_methods (ToQuery put_query)) ∧ "PUT" ≠ "OPTIONS"
  ∧ sent_status (serve (ToQuery put_query) answering_env fresh_world) = Some 405%Z
  ∧ sent_status (serve (ToHealth put) answering_env fresh_world) = Some 200%Z.
Proof.
  intros put put_query.
  assert ("PUT" ∉ allowed_methods (ToQuery put_query)) as Hnot.
  { intros Hin. apply list_elem_of_singleton in Hin. discriminate Hin. }
  assert ("PUT" ≠ "OPTIONS") as Hopt by discriminate.
  split; [exact Hnot |]. split; [exact Hopt |]. split.
  - destruct (proj1 (disallowed_methods_rejected (ToQuery put_query) answering_env
                       fresh_world) eq_refl Hnot Hopt) as (resp & Hrun & Hstatus).
    unfold sent_status. rewrite Hrun. cbn [fst]. by rewrite Hstatus.
  - destruct (proj2 (disallowed_methods_rejected (ToHealth put) answering_env
                       fresh_world) eq_refl) as (resp & Hrun & Hstatus).
    unfold sent_status. rewrite Hrun. cbn [fst]. by rewrite Hstatus.
Defined.

(** The claim as stated fails on the health check: POST is not a method
    of that endpoint, and the handler answers it 200, not 405. *)
Lemma health_check_answers_any_method :
  let post := ToHealth (Request "POST" ∅ ∅ ()) in
  (request_method post ∉ allowed_methods post)
  ∧ request_method post ≠ "OPTIONS"
  ∧ sent_status (serve post answering_env fresh_world) = Some 200%Z
  ∧ sent_status (serve post answering_env fresh_world) ≠ Some 405%Z.
Proof.
  intros post. split; [| split; [| split]].
  - intros Hin. apply list_elem_of_singleton in Hin. discriminate Hin.
  - discriminate.
  - reflexivity.
  - discriminate.
Qed.

(** ** Storage failures *)

(** Why the database has to work in the statements above: when the first
    write fails, the submit-query handler answers 500 and has written
    nothing and called no provider. *)
Lemma pending_write_failure (req : request QueryApi.json_body) e w id err :
  method req = "POST" → acceptable_body (body req) id →
  db_fault e (db_ops w) = Some err →
  ∃ resp w',
    QueryApi.handler req e w = (Ok resp, w')
    ∧ res_status resp = 500%Z ∧ db w' = db w ∧ log w' = log w.
Proof.
  intros Hmethod Hbody Hfault.
  destruct (validateRequest_acceptable _ _ Hbody) as [Hid Hvalid].
  unfold QueryApi.handler. rewrite Hmethod.
  destruct (decide ("POST" = "OPTIONS")) as [? | _]; [done |].
  destruct (decide ("POST" ≠ "POST")) as [? | _]; [done |].
  unfold try_catch. rewrite Hvalid, Hid. cbn [QueryApi.valid QueryApi.inputType negb].
  rewrite bind_run.
  unfold savePendingResponse, ref_set, firebase. rewrite bind_run.
  unfold Date_now. rewrite Hfault.
  by eexists _, _.
Qed.

(** * Further properties *)

(** ** Replacements and trimming *)

Section ReplaceFacts.

Implicit Types (s r : jstring) (c : N) (m : jstring → option (nat * jstring)).

Lemma replace_g_skip m k s : replace_g m k s = replace_g m 0 (drop k s).
Proof.
  revert k. induction s as [| c r IH]; intros [| k]; simpl; try reflexivity.
  apply IH.
Qed.

(** What holds of every character of the text and of every replacement
    holds of every character of the result. *)
Lemma replace_g_Forall (P : N → Prop) m :
  (∀ s n rep, m s = Some (n, rep) → Forall P s → Forall P rep) →
  ∀ s k, Forall P s → Forall P (replace_g m k s).
Proof.
  intros Hm s. induction s as [| c r IH]; intros k Hs; simpl; [constructor |].
  pose proof (Forall_inv Hs) as Hc. pose proof (Forall_inv_tail Hs) as Hr.
  destruct k as [| k]; [| by apply IH].
  destruct (m (c :: r)) as [[[| n] rep] |] eqn:Hmatch.
  - constructor; [done | by apply IH].
  - apply Forall_app. split; [by eapply Hm | by apply IH].
  - constructor; [done | by apply IH].
Qed.

(** A character at which the expression always matches is never copied to
    the result. *)
Lemma replace_g_removes (q : N → bool) m :
  (∀ s n rep, m s = Some (n, rep) → Forall (λ c, q c = true) rep) →
  (∀ c r, q c = false → ∃ n rep, m (c :: r) = Some (S n, rep)) →
  ∀ s k, Forall (λ c, q c = true) (replace_g m k s).
Proof.
  intros Hrep Hmatch s. induction s as [| c r IH]; intros k; simpl; [constructor |].
  destruct k as [| k]; [| apply IH].
  destruct (q c) eqn:Hq.
  - destruct (m (c :: r)) as [[[| n] rep] |] eqn:Hm.
    + constructor; [done | apply IH].
    + apply Forall_app. split; [by eapply Hrep | apply IH].
    + constructor; [done | apply IH].
  - destruct (Hmatch c r Hq) as (n & rep & Hm). rewrite Hm.
    apply Forall_app. split; [by eapply Hrep | apply IH].
Qed.

Lemma Forall_take_while (P : N → Prop) p s : Forall P s → Forall P (take_while p s).
Proof.
  induction 1 as [| c r Hc Hr IH]; simpl; [constructor |].
  destruct (p c); by constructor.
Qed.

Lemma Forall_drop_while (P : N → Prop) p s : Forall P s → Forall P (drop_while p s).
Proof.
  induction 1 as [| c r Hc Hr IH]; simpl; [constructor |].
  destruct (p c); [done | by constructor].
Qed.

Lemma take_drop_while p s : take_while p s ++ drop_while p s = s.
Proof. induction s as [| c r IH]; simpl; [done |]. destruct (p c); simpl; by f_equal. Qed.

Lemma drop_take_while p s : drop (length (take_while p s)) s = drop_while p s.
Proof. induction s as [| c r IH]; simpl; [done |]. by destruct (p c). Qed.

Lemma drop_while_head p s : match drop_while p s with c :: _ => p c = false | [] => True end.
Proof.
  induction s as [| c r IH]; simpl; [done |].
  destruct (p c) eqn:Hc; [done | by rewrite Hc].
Qed.

Lemma drop_while_id p s :
  match s with c :: _ => p c = false | [] => True end → drop_while p s = s.
Proof. destruct s as [| c r]; simpl; [done |]. by intros ->. Qed.

Lemma drop_while_all p s : Forall (λ c, p c = true) s → drop_while p s = [].
Proof. induction 1 as [| c r Hc Hr IH]; simpl; [done |]. by rewrite Hc. Qed.

(** [trim] keeps a segment of the text: what is left of it after the
    leading white space, up to some length. *)
Lemma trim_segment s : ∃ k, trim s = take k (drop_while is_space s).
Proof.
  unfold trim. set (u := drop_while is_space s).
  exists (length u - length (take_while is_space (reverse u)))%nat.
  rewrite <- drop_take_while, reverse_drop. by rewrite length_reverse, reverse_involutive.
Qed.

Lemma Forall_trim (P : N → Prop) s : Forall P s → Forall P (trim s).
Proof.
  intros Hs. destruct (trim_segment s) as [k ->].
  by apply Forall_take, Forall_drop_while.
Qed.

Lemma trim_no_leading_space s : no_leading_space (trim s).
Proof.
  destruct (trim_segment s) as [k ->]. unfold no_leading_space.
  pose proof (drop_while_head is_space s) as Hhead.
  destruct (drop_while is_space s) as [| c r]; [by destruct k |].
  by destruct k.
Qed.

Lemma trim_no_trailing_space s : no_leading_space (reverse (trim s)).
Proof.
  unfold trim. rewrite reverse_involutive. apply drop_while_head.
Qed.

Lemma trim_fixed s :
  no_leading_space s → no_leading_space (reverse s) → trim s = s.
Proof.
  intros Hfront Hback. unfold trim.
  rewrite (drop_while_id _ s Hfront), (drop_while_id _ _ Hback).
  apply reverse_involutive.
Qed.

(** [trim] is idempotent. *)
Lemma trim_trim s : trim (trim s) = trim s.
Proof. apply trim_fixed; [apply trim_no_leading_space | apply trim_no_trailing_space]. Qed.

Lemma trim_all_space s : Forall (λ c, is_space c = true) s → trim s = [].
Proof. intros Hs. unfold trim. rewrite (drop_while_all _ s Hs). reflexivity. Qed.

End ReplaceFacts.

(** ** What [cleanResponse] leaves in an answer *)

Section CleaningFacts.

Implicit Types (s r : jstring) (c : N).

(** A property of characters that the space and the newline have. *)
Context (P : N → Prop) (P_space : P (ch " ")) (P_newline : P 10%N).

Lemma re_bold_keeps : keeps P re_bold.
Proof. intros s n rep. unfold re_bold. case_match; intros [= <- <-] _; constructor. Qed.

Lemma re_star_keeps : keeps P re_star.
Proof. intros s n rep. unfold re_star. case_match; intros [= <- <-] _; constructor. Qed.

Lemma re_underscore_keeps : keeps P re_underscore.
Proof.
  intros s n rep. unfold re_underscore. case_match; intros [= <- <-] _.
  by repeat constructor.
Qed.

Lemma re_header_keeps : keeps P re_header.
Proof. intros s n rep. unfold re_header. case_match; intros [= <- <-] _; constructor. Qed.

Lemma re_link_keeps : keeps P re_link.
Proof.
  intros s n rep. unfold re_link. destruct s as [| c r]; [done |].
  repeat case_match; try done. intros [= <- <-] Hs.
  apply Forall_take_while. by eapply Forall_inv_tail.
Qed.

Lemma re_fence_keeps : keeps P re_fence.
Proof. intros s n rep. unfold re_fence. repeat case_match; try done; intros [= <- <-] _; constructor. Qed.

Lemma re_code_keeps : keeps P re_code.
Proof.
  intros s n rep. unfold re_code. destruct s as [| c r]; [done |].
  repeat case_match; try done. intros [= <- <-] Hs.
  apply Forall_take_while. by eapply Forall_inv_tail.
Qed.

Lemma re_newlines_keeps : keeps P re_newlines.
Proof.
  intros s n rep. unfold re_newlines. case_match; intros [= <- <-] _.
  by repeat constructor.
Qed.

Lemma re_spaces_keeps : keeps P re_spaces.
Proof.
  intros s n rep. unfold re_spaces. case_match; intros [= <- <-] _.
  by repeat constructor.
Qed.

Lemma replace_all_keeps m s : keeps P m → Forall P s → Forall P (replace_all m s).
Proof. intros Hm Hs. by apply replace_g_Forall. Qed.

(** The stages of [strip_markdown] after the removal of the headers. *)
Lemma later_stages_keep s :
  Forall P s →
  Forall P (trim (replace_all re_spaces (replace_all re_newlines (replace_all re_code
              (replace_all re_fence (replace_all re_link s)))))).
Proof.
  intros Hs. apply Forall_trim.
  apply replace_all_keeps; [apply re_spaces_keeps |].
  apply replace_all_keeps; [apply re_newlines_keeps |].
  apply replace_all_keeps; [apply re_code_keeps |].
  apply replace_all_keeps; [apply re_fence_keeps |].
  by apply replace_all_keeps; [apply re_link_keeps |].
Qed.

End CleaningFacts.

Section Markers.

Implicit Types (s r : jstring) (c : N).

Lemma starts_with_char a c r : starts_with [a] (c :: r) = (a =? c)%N.
Proof. simpl. apply andb_true_r. Qed.

Lemma no_star_after s : Forall (λ c, c ≠ ch "*") (replace_all re_star s).
Proof.
  eapply Forall_impl.
  - apply (replace_g_removes (λ c, negb (c =? ch "*")%N) re_star).
    + intros s' n rep. unfold re_star. case_match; intros [= <- <-]; constructor.
    + intros c r Hc. apply negb_false_iff, N.eqb_eq in Hc as ->. by eexists _, _.
  - intros c Hc. by apply negb_true_iff, N.eqb_neq in Hc.
Qed.

Lemma no_underscore_after s : Forall (λ c, c ≠ ch "_") (replace_all re_underscore s).
Proof.
  eapply Forall_impl.
  - apply (replace_g_removes (λ c, negb (c =? ch "_")%N) re_underscore).
    + intros s' n rep. unfold re_underscore. case_match; intros [= <- <-].
      by repeat constructor.
    + intros c r Hc. apply negb_false_iff, N.eqb_eq in Hc as ->. by eexists _, _.
  - intros c Hc. by apply negb_true_iff, N.eqb_neq in Hc.
Qed.

Lemma no_hash_after s : Forall (λ c, c ≠ ch "#") (replace_all re_header s).
Proof.
  eapply Forall_impl.
  - apply (replace_g_removes (λ c, negb (c =? ch "#")%N) re_header).
    + intros s' n rep. unfold re_header. case_match; intros [= <- <-]; constructor.
    + intros c r Hc. apply negb_false_iff, N.eqb_eq in Hc as ->.
      unfold re_header, count_while. simpl.
      destruct (length (take_while (is_char "#") r)) as [| [| [| [| [| k]]]]];
        by eexists _, _.
  - intros c Hc. by apply negb_true_iff, N.eqb_neq in Hc.
Qed.

Lemma strip_markdown_no_marker text : Forall no_marker (strip_markdown text).
Proof.
  unfold strip_markdown.
  set (s1 := replace_all re_star _).
  assert (Forall (λ c, c ≠ ch "*") s1) as H1 by apply no_star_after.
  set (s2 := replace_all re_underscore s1).
  assert (Forall (λ c, c ≠ ch "*" ∧ c ≠ ch "_") s2) as H2.
  { apply Forall_and. split; [| apply no_underscore_after].
    apply replace_all_keeps; [by apply re_underscore_keeps | done]. }
  set (s3 := replace_all re_header s2).
  assert (Forall no_marker s3) as H3.
  { unfold no_marker.
    assert (Forall (λ c, c ≠ ch "*" ∧ c ≠ ch "_") s3) as H12
      by (apply replace_all_keeps; [apply re_header_keeps | exact H2]).
    pose proof (no_hash_after s2) as Hhash. fold s3 in Hhash.
    rewrite Forall_forall in *. intros c Hc.
    destruct (H12 c Hc). by repeat split; [.. | apply Hhash]. }
  apply later_stages_keep; [by vm_compute | by vm_compute | exact H3].
Qed.

(** The three shapes of what [cleanResponse] returns. *)
Lemma cleanResponse_cases text :
  (∃ k, cleanResponse text = take k (strip_markdown text))
  ∨ cleanResponse text = take MAX_RESPONSE_LENGTH (strip_markdown text) ++ js "...".
Proof.
  destruct (Nat.le_gt_cases (length (strip_markdown text)) MAX_RESPONSE_LENGTH)
    as [Hshort | Hlong].
  - left. exists (length (strip_markdown text)).
    by rewrite (cleanResponse_short _ Hshort), firstn_all.
  - rewrite (cleanResponse_long _ Hlong). cbv zeta. destruct (_ <? _)%Z.
    + left. eexists. by rewrite take_take.
    + by right.
Qed.

(** The answer that [cleanResponse] returns has no [*], no [_] and no [#]. *)
Lemma cleanResponse_no_marker text : Forall no_marker (cleanResponse text).
Proof.
  pose proof (strip_markdown_no_marker text) as Hstrip.
  destruct (cleanResponse_cases text) as [[k ->] | ->].
  - by apply Forall_take.
  - apply Forall_app. split; [by apply Forall_take |].
    by repeat constructor.
Qed.

End Markers.

Section Spacing.

Implicit Types (s r : jstring) (c : N).

Lemma spaces_step_space c r :
  is_space c = true →
  replace_all re_spaces (c :: r) = ch " " :: replace_all re_spaces (drop_while is_space r).
Proof.
  intros Hc. unfold replace_all. simpl replace_g.
  unfold re_spaces, count_while. simpl take_while. rewrite Hc. simpl.
  by rewrite replace_g_skip, drop_take_while.
Qed.

Lemma spaces_step_other c r :
  is_space c = false →
  replace_all re_spaces (c :: r) = c :: replace_all re_spaces r.
Proof.
  intros Hc. unfold replace_all. simpl replace_g.
  unfold re_spaces, count_while. simpl take_while. by rewrite Hc.
Qed.

Lemma length_drop_while p s : (length (drop_while p s) ≤ length s)%nat.
Proof. induction s as [| c r IH]; simpl; [done |]. destruct (p c); simpl; lia. Qed.

Lemma single_spaced_collapsed s : single_spaced (replace_all re_spaces s).
Proof.
  remember (length s) as n eqn:Hn. revert s Hn.
  induction n as [n IH] using lt_wf_ind. intros s ->.
  destruct s as [| c r]; [done |].
  destruct (is_space c) eqn:Hc.
  - rewrite (spaces_step_space _ _ Hc).
    pose proof (drop_while_head is_space r) as Hhead.
    pose proof (length_drop_while is_space r) as Hlen.
    split.
    + intros _. split; [done |].
      destruct (drop_while is_space r) as [| c' r']; [done |].
      by rewrite (spaces_step_other _ _ Hhead).
    + eapply IH; [| reflexivity]. simpl. lia.
  - rewrite (spaces_step_other _ _ Hc). split; [by rewrite Hc |].
    eapply IH; [| reflexivity]. simpl. lia.
Qed.

Lemma single_spaced_take k s : single_spaced s → single_spaced (take k s).
Proof.
  revert k. induction s as [| c r IH]; intros [| k]; simpl; try done.
  intros [Hc Hr]. split; [| by apply IH].
  intros Hsp. destruct (Hc Hsp) as [-> Hnext]. split; [done |].
  destruct r as [| c' r']; [by destruct k |]. by destruct k.
Qed.

Lemma single_spaced_drop_while p s : single_spaced s → single_spaced (drop_while p s).
Proof.
  induction s as [| c r IH]; simpl; [done |].
  intros [Hc Hr]. destruct (p c); [by apply IH | by split].
Qed.

Lemma single_spaced_trim s : single_spaced s → single_spaced (trim s).
Proof.
  intros Hs. destruct (trim_segment s) as [k ->].
  by apply single_spaced_take, single_spaced_drop_while.
Qed.

Lemma single_spaced_ellipsis s : single_spaced s → single_spaced (s ++ js "...").
Proof.
  induction s as [| c r IH]; [by vm_compute |].
  intros [Hc Hr]. split; [| by apply IH].
  intros Hsp. destruct (Hc Hsp) as [-> Hnext]. split; [done |].
  by destruct r.
Qed.

Lemma strip_markdown_spacing text :
  single_spaced (strip_markdown text) ∧ no_leading_space (strip_markdown text).
Proof.
  unfold strip_markdown. split; [| apply trim_no_leading_space].
  apply single_spaced_trim, single_spaced_collapsed.
Qed.

(** In the answer that [cleanResponse] returns every white-space character
    is a space that is followed by a character which is not white space, or
    by the end; and the answer does not start with white space. *)
Lemma cleanResponse_spacing text :
  single_spaced (cleanResponse text) ∧ no_leading_space (cleanResponse text).
Proof.
  destruct (strip_markdown_spacing text) as [Hspaced Hlead].
  destruct (cleanResponse_cases text) as [[k ->] | ->].
  - split; [by apply single_spaced_take |].
    destruct (strip_markdown text); by destruct k.
  - split; [by apply single_spaced_ellipsis, single_spaced_take |].
    unfold MAX_RESPONSE_LENGTH. by destruct (strip_markdown text).
Qed.

(** Whatever the text, what [cleanResponse] returns has at most 1003
    characters, none of the markers [*], [_] and [#], and no white space
    but single spaces, none of them in front. *)
Theorem cleanResponse_shape text :
  (length (cleanResponse text) ≤ 1003)%nat
  ∧ Forall no_marker (cleanResponse text)
  ∧ single_spaced (cleanResponse text)
  ∧ no_leading_space (cleanResponse text).
Proof.
  split; [apply cleanResponse_length |]. split; [apply cleanResponse_no_marker |].
  apply cleanResponse_spacing.
Qed.

Lemma lastIndexOf_mark s c :
  (0 ≤ lastIndexOf s c)%Z → ∃ k : nat, lastIndexOf s c = Z.of_nat k ∧ s !! k = Some c.
Proof.
  intros Hpos. destruct (lastIndexOf_spec s c) as [[Hno _] | (k & Hk & Hc & _)]; [lia |].
  by exists k.
Qed.

Lemma lastSentenceEnd_mark s :
  (0 ≤ lastSentenceEnd s)%Z →
  ∃ (k : nat) c, lastSentenceEnd s = Z.of_nat k ∧ s !! k = Some c ∧ sentence_end c.
Proof.
  unfold lastSentenceEnd. intros Hpos.
  set (a := lastIndexOf s (ch ".")) in *. set (b := lastIndexOf s (ch "?")) in *.
  set (d := lastIndexOf s (ch "!")) in *.
  destruct (Z.max_spec (Z.max a b) d) as [[_ Hmax] | [_ Hmax]]; rewrite Hmax in *.
  - destruct (lastIndexOf_mark s (ch "!") Hpos) as (k & Hk & Hc).
    exists k, (ch "!"). unfold sentence_end. auto.
  - destruct (Z.max_spec a b) as [[_ Hab] | [_ Hab]]; rewrite Hab in *.
    + destruct (lastIndexOf_mark s (ch "?") Hpos) as (k & Hk & Hc).
      exists k, (ch "?"). unfold sentence_end. auto.
    + destruct (lastIndexOf_mark s (ch ".") Hpos) as (k & Hk & Hc).
      exists k, (ch "."). unfold sentence_end. auto.
Qed.

(** A cleaned answer longer than the limit comes back in one of two
    shapes: its first 1000 characters and the ellipsis, 1003 characters in
    all; or its characters up to a sentence-terminating mark that stands
    past index 500, which is then the last character of the answer. *)
Theorem cleanResponse_truncated_shape text :
  (1000 < length (strip_markdown text))%nat →
  (cleanResponse text = take 1000 (strip_markdown text) ++ js "..."
   ∧ length (cleanResponse text) = 1003%nat)
  ∨ (∃ (k : nat) c,
       (500 < k < 1000)%nat
       ∧ cleanResponse text = take (S k) (strip_markdown text)
       ∧ length (cleanResponse text) = S k
       ∧ last (cleanResponse text) = Some c ∧ sentence_end c).
Proof.
  intros Hlong. rewrite (cleanResponse_long _ Hlong). cbv zeta.
  rewrite MAX_RESPONSE_LENGTH_eq. change MAX_RESPONSE_LENGTH with 1000%nat.
  set (head := take 1000 (strip_markdown text)).
  assert (length head = 1000%nat) as Hhead by (unfold head; rewrite length_take; lia).
  destruct (Z.ltb_spec 1000 (2 * lastSentenceEnd head)) as [Hpast | _].
  - right. destruct (lastSentenceEnd_mark head) as (k & c & Hk & Hc & Hend); [lia |].
    assert (k < 1000)%nat as Hlt by (rewrite <- Hhead; by eapply lookup_lt_Some).
    exists k, c. rewrite Hk.
    replace (Z.to_nat (Z.of_nat k + 1)) with (S k) by lia.
    assert (take (S k) head = take (S k) (strip_markdown text)) as Htake.
    { unfold head. rewrite take_take. f_equal. lia. }
    split; [lia |]. split; [done |].
    assert (length (take (S k) head) = S k) as Hlen by (rewrite length_take; lia).
    split; [done |]. split; [| done].
    rewrite last_lookup, Hlen. simpl. rewrite lookup_take_lt by lia. done.
  - left. split; [done |]. rewrite length_app, Hhead. reflexivity.
Qed.

Lemma cleanResponse_truncated_shape_witness :
  let text := replicate 600 (ch "a") ++ js "." ++ replicate 600 (ch "b") in
  (1000 < length (strip_markdown text))%nat
  ∧ length (cleanResponse text) = 601%nat.
Proof.
  intros text.
  assert (1000 < length (strip_markdown text))%nat as Hlong by (vm_compute; lia).
  split; [exact Hlong |].
  destruct (cleanResponse_truncated_shape text Hlong) as [[_ Hlen] | (k & c & _ & _ & _ & _ & _)].
  - vm_compute. reflexivity.
  - vm_compute. reflexivity.
Defined.

End Spacing.

(** ** The two AI services *)

(** Unfolds the monad of a run. *)
Ltac run_monad :=
  unfold call_provider in *;
  unfold try_catch, mbind, M_bind, mret, M_ret, mthrow, M_throw, ask, emit, sleep in *.

Section ServiceFacts.

(** What [transcribeAudio] returns is not empty and is trimmed, and it
    comes from exactly one call to Whisper, on the audio it was given. *)
Theorem transcribeAudio_result audio e w text w' :
  WhisperService.transcribeAudio audio e w = (Ok text, w') →
  text ≠ [] ∧ trim text = text
  ∧ log w' = log w ++ [WhisperCall (str_of audio)] ∧ db w' = db w.
Proof.
  unfold WhisperService.transcribeAudio, WhisperService.getGroqClient,
    WhisperService.transcriptions_create.
  run_monad. intros Hrun.
  repeat (case_match; simplify_eq; try done).
  all: simpl in *; simplify_eq.
  all: repeat (case_match; simplify_eq; try done).
  match goal with H : bool_decide _ = false |- _ => apply bool_decide_eq_false in H end.
  split; [done |]. split; [apply trim_trim | done].
Qed.

Lemma transcribeAudio_result_witness :
  let run := WhisperService.transcribeAudio (VStr (js "UklGRg==")) answering_env fresh_world in
  run.1 = Ok (js "what time is it")
  ∧ trim (js "what time is it") = js "what time is it".
Proof.
  intros run.
  assert (run = (Ok (js "what time is it"), run.2)) as Hrun by (vm_compute; reflexivity).
  split; [by rewrite Hrun |].
  exact (proj1 (proj2 (transcribeAudio_result _ _ _ _ _ Hrun))).
Defined.

(** Every error that [transcribeAudio] throws carries one of its own
    messages: a message of the provider is never passed on without the
    prefix 'Transcription failed: '. *)
Theorem transcribeAudio_errors audio e w err w' :
  WhisperService.transcribeAudio audio e w = (Thrown err, w') →
  whisper_error_message (message err).
Proof.
  unfold WhisperService.transcribeAudio, WhisperService.getGroqClient,
    WhisperService.transcriptions_create.
  run_monad. intros Hrun.
  repeat (case_match; simplify_eq; try done).
  all: simpl in *; simplify_eq.
  all: repeat (case_match; simplify_eq; try done).
  all: unfold whisper_error_message; simpl; eauto 10.
Qed.

Lemma transcribeAudio_errors_witness :
  let run := WhisperService.transcribeAudio (VStr (js "UklGRg==")) failing_env fresh_world in
  run.1 = Thrown (new_Error (js "Invalid audio format. Please use WAV format."))
  ∧ whisper_error_message (js "Invalid audio format. Please use WAV format.").
Proof.
  intros run.
  assert (run = (Thrown (new_Error (js "Invalid audio format. Please use WAV format.")), run.2))
    as Hrun by (vm_compute; reflexivity).
  split; [by rewrite Hrun |].
  exact (transcribeAudio_errors _ _ _ _ _ Hrun).
Defined.

(** Every error that [generateResponse] throws carries one of its own
    messages: a message of the provider is never passed on without the
    prefix 'AI processing failed: '. *)
Theorem generateResponse_errors text e w err w' :
  generateResponse text e w = (Thrown err, w') →
  gemini_error_message (message err) ∧ code err = None.
Proof.
  unfold generateResponse, getModel, generateContent.
  run_monad. intros Hrun.
  repeat (case_match; simplify_eq; try done).
  all: simpl in *; simplify_eq.
  all: repeat (case_match; simplify_eq; try done).
  all: unfold gemini_error_message; simpl; eauto 10.
Qed.

Lemma generateResponse_errors_witness :
  let run := generateResponse (js "what time is it") failing_env fresh_world in
  run.1 = Thrown (new_Error (js "AI service rate limit reached. Please wait a moment."))
  ∧ gemini_error_message (js "AI service rate limit reached. Please wait a moment.").
Proof.
  intros run.
  assert (run = (Thrown (new_Error (js "AI service rate limit reached. Please wait a moment.")), run.2))
    as Hrun by (vm_compute; reflexivity).
  split; [by rewrite Hrun |].
  exact (proj1 (generateResponse_errors _ _ _ _ _ Hrun)).
Defined.

End ServiceFacts.

Section ServiceRuns.

Lemma trim_nonempty s : trim s ≠ [] → s ≠ [].
Proof. by intros Htrim ->. Qed.

(** The timer wins. *)
Lemma generateResponse_timeout text e w :
  trim text ≠ [] → GEMINI_API_KEY e = true →
  (REQUEST_TIMEOUT_MS ≤ latency (gemini_api e (trim text)))%Z →
  generateResponse text e w =
    (Thrown (new_Error (js "AI service is taking too long. Please try again.")),
     called w (GeminiCall (trim text)) REQUEST_TIMEOUT_MS).
Proof.
  intros Htrim Hkey Hlate. pose proof (trim_nonempty _ Htrim) as Htext.
  unfold generateResponse, getModel, generateContent.
  rewrite !bool_decide_eq_false_2 by done. cbn [orb].
  run_monad. rewrite Hkey.
  destruct (Z.ltb_spec (latency (gemini_api e (trim text))) REQUEST_TIMEOUT_MS) as [? | _];
    [lia |].
  reflexivity.
Qed.

(** The provider wins with an answer that is not blank. *)
Lemma generateResponse_answer text e w answer :
  trim text ≠ [] → GEMINI_API_KEY e = true →
  (latency (gemini_api e (trim text)) < REQUEST_TIMEOUT_MS)%Z →
  result (gemini_api e (trim text)) = inl answer → trim answer ≠ [] →
  generateResponse text e w =
    (Ok (cleanResponse answer),
     called w (GeminiCall (trim text)) (latency (gemini_api e (trim text)))).
Proof.
  intros Htrim Hkey Hfast Hanswer Hnonblank.
  pose proof (trim_nonempty _ Htrim) as Htext.
  pose proof (trim_nonempty _ Hnonblank) as Hne.
  unfold generateResponse, getModel, generateContent.
  rewrite !bool_decide_eq_false_2 by done. cbn [orb].
  run_monad. rewrite Hkey.
  destruct (Z.ltb_spec (latency (gemini_api e (trim text))) REQUEST_TIMEOUT_MS) as [_ | ?];
    [| lia].
  rewrite Hanswer. cbn beta iota.
  rewrite !bool_decide_eq_false_2 by done. reflexivity.
Qed.






End ServiceRuns.

(** ** Submissions, end to end *)

Section Submissions.

Lemma text_mode_input (b : QueryApi.json_body) id t :
  acceptable_body b id →
  truthy (QueryApi.body_prop b "audio") = false →
  QueryApi.body_prop b "text" = VStr t →
  submit_input b = inr t ∧ trim t ≠ [].
Proof.
  intros (props & -> & _ & _ & Hmode) Haudio Htext.
  unfold submit_input. rewrite Haudio, Htext. split; [done |].
  destruct Hmode as [(a & Ha & Hne & _) | (_ & t' & Ht' & Htrim & _)].
  - rewrite (body_prop_lookup _ _ _ Ha), truthy_VStr in Haudio by done. done.
  - rewrite (body_prop_lookup _ _ _ Ht') in Htext. by simplify_eq.
Qed.


(** When the timer of 25 s wins the race against Gemini, a text submission
    is answered 200 with success true and the message 'Query received but
    AI processing failed', and an error record with the message of the
    timeout is stored; Gemini was called once, with the trimmed text. *)
Theorem generation_timeout_recorded (req : request QueryApi.json_body) e w id t :
  method req = "POST" → acceptable_body (body req) id →
  truthy (QueryApi.body_prop (body req) "audio") = false →
  QueryApi.body_prop (body req) "text" = VStr t →
  db_available e → GEMINI_API_KEY e = true →
  (REQUEST_TIMEOUT_MS ≤ latency (gemini_api e (trim t)))%Z →
  ∃ resp w' written_at,
    QueryApi.handler req e w = (Ok resp, w')
    ∧ res_status resp = 200%Z
    ∧ body_field resp "success" = Some (VBool true)
    ∧ body_field resp "message"
        = Some (VStr (js "Query received but AI processing failed"))
    ∧ record_of w' id
        = Some (error_record (js "AI service is taking too long. Please try again.")
                  written_at)
    ∧ filter (λ ev, is_provider_call ev = true) (log w')
        = filter (λ ev, is_provider_call ev = true) (log w) ++ [GeminiCall (trim t)].
Proof.
  intros Hmethod Hbody Haudio Htext Hdb Hkey Hlate.
  destruct (text_mode_input _ _ _ Hbody Haudio Htext) as [Hinput Htrim].
  edestruct (query_handler_run e Hdb req w id)
    as (resp & Hrun & Hstatus & Hsuccess & Hmessage); [done | done | |].
  { rewrite Hinput. simpl. unfold generation.
    rewrite generateResponse_timeout by done. reflexivity. }
  eexists resp, _, _. split; [exact Hrun |]. split; [done |].
  split; [exact Hsuccess |]. split; [exact Hmessage |].
  split; [apply record_of_error |].
  cbn [log written called]. rewrite !filter_app. cbn. by rewrite !app_nil_r.
Qed.

End Submissions.

Section FailedSubmissions.

Lemma slow_env_available : db_available slow_env.
Proof. intros n. reflexivity. Qed.



Lemma generation_timeout_recorded_witness :
  method text_request = "POST"
  ∧ acceptable_body (body text_request) (js "esp32-001")
  ∧ db_available slow_env
  ∧ (REQUEST_TIMEOUT_MS ≤ latency (gemini_api slow_env (trim (js "what time is it"))))%Z
  ∧ sent_status (QueryApi.handler text_request slow_env fresh_world) = Some 200%Z
  ∧ ∃ written_at,
      record_of (after (QueryApi.handler text_request) slow_env fresh_world) (js "esp32-001")
      = Some (error_record (js "AI service is taking too long. Please try again.")
                written_at).
Proof.
  assert (REQUEST_TIMEOUT_MS ≤ latency (gemini_api slow_env (trim (js "what time is it"))))%Z
    as Hlate by (by vm_compute).
  split; [reflexivity |]. split; [apply text_request_acceptable |].
  split; [apply slow_env_available |]. split; [exact Hlate |].
  destruct (generation_timeout_recorded text_request slow_env fresh_world (js "esp32-001")
              (js "what time is it") eq_refl text_request_acceptable eq_refl eq_refl
              slow_env_available eq_refl Hlate)
    as (resp & w' & written_at & Hrun & Hstatus & _ & _ & Hrec & _).
  unfold sent_status, after. rewrite Hrun. cbn [fst snd].
  rewrite Hstatus. split; [reflexivity |]. by exists written_at.
Defined.





End FailedSubmissions.

(** ** Binary uploads *)

Section Uploads.






End Uploads.

(** ** Answers made of markup *)

Section MarkupOnly.

Implicit Types (s r : jstring) (c : N).

Lemma inner_stages_keep (P : N → Prop) s :
  P (ch " ") → P 10%N → Forall P s →
  Forall P (replace_all re_spaces (replace_all re_newlines (replace_all re_code
              (replace_all re_fence (replace_all re_link s))))).
Proof.
  intros Hspace Hnewline Hs.
  apply replace_all_keeps; [by apply re_spaces_keeps |].
  apply replace_all_keeps; [by apply re_newlines_keeps |].
  apply replace_all_keeps; [apply re_code_keeps |].
  apply replace_all_keeps; [apply re_fence_keeps |].
  by apply replace_all_keeps; [apply re_link_keeps |].
Qed.

Lemma strip_markdown_markup text :
  Forall markup_or_space text → strip_markdown text = [].
Proof.
  intros Htext. unfold strip_markdown. apply trim_all_space.
  assert (markup_or_space (ch " ")) as Hspace by (unfold markup_or_space; auto).
  assert (Forall markup_or_space (replace_all re_bold text)) as H0
    by (apply replace_all_keeps; [apply re_bold_keeps | done]).
  set (s0 := replace_all re_bold text) in *.
  assert (Forall markup_or_space (replace_all re_star s0)) as H1
    by (apply replace_all_keeps; [apply re_star_keeps | done]).
  pose proof (no_star_after s0) as N1.
  set (s1 := replace_all re_star s0) in *.
  assert (Forall markup_or_space (replace_all re_underscore s1)) as H2
    by (apply replace_all_keeps; [by apply re_underscore_keeps | done]).
  assert (Forall (λ c, c ≠ ch "*") (replace_all re_underscore s1)) as N12
    by (apply replace_all_keeps; [by apply re_underscore_keeps | done]).
  pose proof (no_underscore_after s1) as N2.
  set (s2 := replace_all re_underscore s1) in *.
  assert (Forall markup_or_space (replace_all re_header s2)) as H3
    by (apply replace_all_keeps; [apply re_header_keeps | done]).
  assert (Forall (λ c, c ≠ ch "*") (replace_all re_header s2)) as N13
    by (apply replace_all_keeps; [apply re_header_keeps | done]).
  assert (Forall (λ c, c ≠ ch "_") (replace_all re_header s2)) as N23
    by (apply replace_all_keeps; [apply re_header_keeps | done]).
  pose proof (no_hash_after s2) as N3.
  set (s3 := replace_all re_header s2) in *.
  apply inner_stages_keep; [reflexivity | reflexivity |].
  rewrite Forall_forall in *. intros c Hc.
  destruct (H3 c Hc) as [-> | [-> | [-> | Hsp]]]; [| | | done].
  - by destruct (N13 _ Hc).
  - by destruct (N23 _ Hc).
  - by destruct (N3 _ Hc).
Qed.

(** The emptiness of the answer of Gemini is tested before the answer is
    cleaned: an answer that is not blank but is made of the markers [*],
    [_], [#] and white space only is cleaned to the empty string, and the
    empty string is what [generateResponse] returns, as a success. *)
Theorem markup_only_answer_is_empty text e w answer :
  trim text ≠ [] → GEMINI_API_KEY e = true →
  (latency (gemini_api e (trim text)) < REQUEST_TIMEOUT_MS)%Z →
  result (gemini_api e (trim text)) = inl answer →
  trim answer ≠ [] → Forall markup_or_space answer →
  ∃ w', generateResponse text e w = (Ok [], w').
Proof.
  intros Htrim Hkey Hfast Hanswer Hnonblank Hmarkup.
  rewrite (generateResponse_answer text e w answer) by done.
  rewrite cleanResponse_short, strip_markdown_markup by (rewrite ?strip_markdown_markup; simpl; (done || lia)).
  by eexists.
Qed.

Lemma markup_only_answer_is_empty_witness :
  trim (js "what time is it") ≠ []
  ∧ trim (js "** __ ##") ≠ []
  ∧ Forall markup_or_space (js "** __ ##")
  ∧ ∃ w', generateResponse (js "what time is it") markup_env fresh_world = (Ok [], w').
Proof.
  assert (trim (js "what time is it") ≠ []) as H1 by (by vm_compute).
  assert (trim (js "** __ ##") ≠ []) as H2 by (by vm_compute).
  assert (Forall markup_or_space (js "** __ ##")) as H3.
  { repeat (apply Forall_cons_2; [unfold markup_or_space; vm_compute; auto 6 |]).
    apply Forall_nil_2. }
  split; [exact H1 |]. split; [exact H2 |]. split; [exact H3 |].
  apply (markup_only_answer_is_empty (js "what time is it") markup_env fresh_world
           (js "** __ ##") H1 eq_refl); [by vm_compute | reflexivity | exact H2 | exact H3].
Defined.

End MarkupOnly.

(** ** Every request is answered *)

Section Answers.

Lemma returns_ret {A} (Q : A → Prop) a : Q a → returns Q (mret a).
Proof. intros Ha e w a' w' [= <- <-]. done. Qed.

Lemma returns_throw {A} (Q : A → Prop) (err : js_error) : returns Q (mthrow err : M A).
Proof. intros e w a w' [=]. Qed.

Lemma returns_bind {A B} (Q : A → Prop) (R : B → Prop) (m : M A) (f : A → M B) :
  returns Q m → (∀ a, Q a → returns R (f a)) → returns R (m ≫= f).
Proof.
  intros Hm Hf e w b w'. rewrite bind_run.
  destruct (m e w) as [[a | err] w1] eqn:Hrun; [| done].
  intros Hb. eapply Hf; [| exact Hb]. by eapply Hm.
Qed.

Lemma returns_try_catch {A} (Q : A → Prop) (m : M A) (h : js_error → M A) :
  returns Q m → (∀ err, returns Q (h err)) → returns Q (try_catch m h).
Proof.
  intros Hm Hh e w a w'. unfold try_catch.
  destruct (m e w) as [[a' | err] w1] eqn:Hrun.
  - intros [= <- <-]. by eapply Hm.
  - apply Hh.
Qed.

Lemma returns_anything {A} (m : M A) : returns (λ _, True) m.
Proof. by intros e w a w' _. Qed.

(** A [try] whose [catch] sends a response always comes to a response. *)
Lemma try_catch_answers (m : M response) (g : js_error → response) e w :
  ∃ resp w', try_catch m (λ err, mret (g err)) e w = (Ok resp, w').
Proof. unfold try_catch. destruct (m e w) as [[resp | err] w']; by eexists _, _. Qed.

Ltac in_codes := unfold answer_of; split; [cbn; repeat constructor | reflexivity].

Lemma query_generate_step_returns res id q tr :
  returns (answer_of [200; 400; 405; 500]%Z res) (QueryApi.generate_step res id q tr).
Proof.
  unfold QueryApi.generate_step.
  apply returns_try_catch.
  - eapply returns_bind; [apply returns_anything | intros ai _].
    eapply returns_bind; [apply returns_anything | intros ? _].
    apply returns_ret. in_codes.
  - intros err. eapply returns_bind; [apply returns_anything | intros ? _].
    apply returns_ret. in_codes.
Qed.

Lemma query_handler_returns req :
  returns (answer_of [200; 400; 405; 500]%Z QueryApi.cors_headers) (QueryApi.handler req).
Proof.
  unfold QueryApi.handler. cbv zeta.
  destruct (decide (method req = "OPTIONS")); [apply returns_ret; in_codes |].
  destruct (decide (method req ≠ "POST")); [apply returns_ret; in_codes |].
  apply returns_try_catch; [| intros err; apply returns_ret; in_codes].
  destruct (negb _); [apply returns_ret; in_codes |].
  eapply returns_bind; [apply returns_anything | intros ? _].
  eapply (returns_bind
            (λ step, match step with
                     | inr sent => answer_of [200; 400; 405; 500]%Z QueryApi.cors_headers sent
                     | inl _ => True
                     end)).
  - unfold QueryApi.transcribe_step. destruct (QueryApi.inputType _) as [[|] |].
    + apply returns_try_catch.
      * eapply returns_bind; [apply returns_anything | intros t _]. by apply returns_ret.
      * intros err. eapply returns_bind; [apply returns_anything | intros ? _].
        apply returns_ret. in_codes.
    + by apply returns_ret.
    + by apply returns_ret.
  - intros [[q tr] | sent] Hstep.
    + apply query_generate_step_returns.
    + by apply returns_ret.
Qed.

Lemma audio_handler_returns req :
  returns (answer_of [200; 400; 405; 500]%Z AudioApi.cors_headers) (AudioApi.handler req).
Proof.
  unfold AudioApi.handler. cbv zeta.
  destruct (decide (method req = "OPTIONS")); [apply returns_ret; in_codes |].
  destruct (decide (method req ≠ "POST")); [apply returns_ret; in_codes |].
  apply returns_try_catch; [| intros err; apply returns_ret; in_codes].
  destruct (_ || _); [apply returns_ret; in_codes |].
  destruct (body req) as [audioBuffer |]; [| apply returns_ret; in_codes].
  destruct (bool_decide _); [apply returns_ret; in_codes |].
  destruct (_ <? _)%N; [apply returns_ret; in_codes |].
  eapply returns_bind; [apply returns_anything | intros ? _].
  eapply (returns_bind
            (λ step, match step with
                     | inr sent => answer_of [200; 400; 405; 500]%Z AudioApi.cors_headers sent
                     | inl _ => True
                     end)).
  - unfold AudioApi.transcribe_step. apply returns_try_catch.
    + eapply returns_bind; [apply returns_anything | intros t _]. by apply returns_ret.
    + intros err. eapply returns_bind; [apply returns_anything | intros ? _].
      apply returns_ret. in_codes.
  - intros [t | sent] Hstep; [| by apply returns_ret].
    unfold AudioApi.generate_step. apply returns_try_catch.
    + eapply returns_bind; [apply returns_anything | intros ai _].
      eapply returns_bind; [apply returns_anything | intros ? _].
      apply returns_ret. in_codes.
    + intros err. eapply returns_bind; [apply returns_anything | intros ? _].
      apply returns_ret. in_codes.
Qed.

Lemma response_handler_returns {B} (req : request B) :
  returns (answer_of [200; 202; 400; 404; 405; 500]%Z ResponseApi.cors_headers)
          (ResponseApi.handler req).
Proof.
  unfold ResponseApi.handler. cbv zeta.
  destruct (decide (method req = "OPTIONS")); [apply returns_ret; in_codes |].
  destruct (decide (_ ∧ _)); [apply returns_ret; in_codes |].
  destruct (negb _); [apply returns_ret; in_codes |].
  destruct (decide (method req = "GET")).
  - unfold ResponseApi.handleGet.
    apply returns_try_catch; [| intros err; apply returns_ret; in_codes].
    eapply returns_bind; [apply returns_anything | intros response _].
    destruct response as [response |].
    + repeat case_match; apply returns_ret; in_codes.
    + apply returns_ret; in_codes.
  - unfold ResponseApi.handleDelete.
    apply returns_try_catch; [| intros err; apply returns_ret; in_codes].
    eapply returns_bind; [apply returns_anything | intros deleted _].
    destruct (negb deleted); apply returns_ret; in_codes.
Qed.

(** No exception escapes a handler: the submit-query, binary audio and
    poll/delete handlers answer every request, whatever the providers and
    the database do, with one of their statuses and with their CORS and
    content-type headers. *)
Theorem handlers_always_answer e w :
  (∀ req, ∃ resp w',
     QueryApi.handler req e w = (Ok resp, w')
     ∧ res_status resp ∈ [200; 400; 405; 500]%Z
     ∧ res_headers resp = QueryApi.cors_headers)
  ∧ (∀ req, ∃ resp w',
       AudioApi.handler req e w = (Ok resp, w')
       ∧ res_status resp ∈ [200; 400; 405; 500]%Z
       ∧ res_headers resp = AudioApi.cors_headers)
  ∧ (∀ req : request (), ∃ resp w',
       ResponseApi.handler req e w = (Ok resp, w')
       ∧ res_status resp ∈ [200; 202; 400; 404; 405; 500]%Z
       ∧ res_headers resp = ResponseApi.cors_headers).
Proof.
  split; [| split]; intros req.
  - assert (∃ resp w', QueryApi.handler req e w = (Ok resp, w')) as (resp & w' & Hrun).
    { unfold QueryApi.handler. cbv zeta.
      repeat (destruct (decide _); [by eexists _, _ |]).
      apply try_catch_answers. }
    exists resp, w'. split; [done |]. by eapply query_handler_returns.
  - assert (∃ resp w', AudioApi.handler req e w = (Ok resp, w')) as (resp & w' & Hrun).
    { unfold AudioApi.handler. cbv zeta.
      repeat (destruct (decide _); [by eexists _, _ |]).
      apply try_catch_answers. }
    exists resp, w'. split; [done |]. by eapply audio_handler_returns.
  - assert (∃ resp w', ResponseApi.handler req e w = (Ok resp, w')) as (resp & w' & Hrun).
    { unfold ResponseApi.handler. cbv zeta.
      repeat (destruct (decide _); [by eexists _, _ |]).
      destruct (negb _); [by eexists _, _ |].
      destruct (decide _); apply try_catch_answers. }
    exists resp, w'. split; [done |]. by eapply response_handler_returns.
Qed.

End Answers.

(** ** One record per request *)

Section OneRecord.

Implicit Types (path : jstring).


Lemma touches_only_quiet {A} id (m : M A) :
  (∀ e w, db (m e w).2 = db w) → touches_only id m.
Proof. intros Hm e w path _. by rewrite Hm. Qed.

Lemma touches_only_ret {A} id (a : A) : touches_only id (mret a).
Proof. by apply touches_only_quiet. Qed.

Lemma touches_only_throw {A} id (err : js_error) : touches_only id (mthrow err : M A).
Proof. by apply touches_only_quiet. Qed.

Lemma touches_only_Date_now id : touches_only id Date_now.
Proof. by apply touches_only_quiet. Qed.

Lemma touches_only_provider {A} id (m : M A) : provider_only m → touches_only id m.
Proof. intros Hm. apply touches_only_quiet. intros e w. apply Hm. Qed.

Lemma touches_only_bind {A B} id (m : M A) (f : A → M B) :
  touches_only id m → (∀ a, touches_only id (f a)) → touches_only id (m ≫= f).
Proof.
  intros Hm Hf e w path Hpath. rewrite bind_run. specialize (Hm e w path Hpath).
  destruct (m e w) as [[a | err] w1]; simpl in *; [| done].
  by rewrite Hf.
Qed.

Lemma touches_only_try_catch {A} id (m : M A) (h : js_error → M A) :
  touches_only id m → (∀ err, touches_only id (h err)) → touches_only id (try_catch m h).
Proof.
  intros Hm Hh e w path Hpath. unfold try_catch. specialize (Hm e w path Hpath).
  destruct (m e w) as [[a | err] w1]; simpl in *; [done |].
  by rewrite Hh.
Qed.

Lemma touches_only_firebase {A} id (op : gmap jstring jsobject → A * gmap jstring jsobject) ev :
  (∀ d path, path ≠ getRef id → (op d).2 !! path = d !! path) →
  touches_only id (firebase op ev).
Proof.
  intros Hop e w path Hpath. unfold firebase.
  destruct (db_fault e (db_ops w)); [done |].
  specialize (Hop (db w) path Hpath). by destruct (op (db w)).
Qed.

Lemma touches_only_set id value : touches_only id (ref_set (getRef id) value).
Proof.
  apply touches_only_firebase. intros d path Hpath. cbn [snd]. unfold put.
  destruct (decide (stored value = ∅)); [by rewrite lookup_delete_ne | by rewrite lookup_insert_ne].
Qed.

Lemma touches_only_update id value : touches_only id (ref_update (getRef id) value).
Proof. apply touches_only_firebase. intros d path Hpath. simpl. by rewrite lookup_insert_ne. Qed.

Lemma touches_only_once id : touches_only id (ref_once (getRef id)).
Proof. by apply touches_only_firebase. Qed.

Lemma touches_only_remove id : touches_only id (ref_remove (getRef id)).
Proof. apply touches_only_firebase. intros d path Hpath. simpl. by rewrite lookup_delete_ne. Qed.

Ltac touches_step :=
  lazymatch goal with
  | |- ∀ _, _ => intro
  | |- touches_only _ (mret _) => apply touches_only_ret
  | |- touches_only _ (mthrow _) => apply touches_only_throw
  | |- touches_only _ (_ ≫= _) => apply touches_only_bind
  | |- touches_only _ (try_catch _ _) => apply touches_only_try_catch
  | |- touches_only _ Date_now => apply touches_only_Date_now
  | |- touches_only _ (ref_set _ _) => apply touches_only_set
  | |- touches_only _ (ref_update _ _) => apply touches_only_update
  | |- touches_only _ (ref_once _) => apply touches_only_once
  | |- touches_only _ (ref_remove _) => apply touches_only_remove
  | |- touches_only _ (WhisperService.transcribeAudio _) =>
      apply touches_only_provider, transcribeAudio_provider_only
  | |- touches_only _ (GeminiService.generateResponse _) =>
      apply touches_only_provider, generateResponse_provider_only
  | |- touches_only _ _ => progress case_match
  end.





Lemma markAsConsumed_touches_only id : touches_only id (markAsConsumed id).
Proof. unfold markAsConsumed. cbv zeta. repeat touches_step. Qed.


Lemma responseExists_touches_only id : touches_only id (responseExists id).
Proof. unfold responseExists. cbv zeta. repeat touches_step. Qed.






End OneRecord.

Section OneRecordWitness.


End OneRecordWitness.

(** ** Writing, reading and acknowledging records *)

Section RoundTrips.

Lemma getResponse_returns e w id :
  db_fault e (db_ops w) = None →
  (getResponse id e w).1 = Ok (response_object id <$> record_of w id)
  ∧ db (after (getResponse id) e w) = db w.
Proof. intros Hup. unfold after. by rewrite getResponse_run. Qed.

(** What was saved is what is read: after a write of an answer or of an
    error, [getResponse] returns the identifier, the text, the status, the
    time of the write and consumed false, whatever the record was before;
    after the pending write it returns the status pending, the time of the
    write and consumed false. *)
Theorem save_then_get e w id text :
  db_available e →
  ((saveResponse id text;; getResponse id) e w).1
    = Ok (Some (object [ ("requestId", VStr id); ("text", VStr text);
                         ("status", VStr (js "completed"));
                         ("timestamp", VNum (now w)); ("consumed", VBool false) ]))
  ∧ ((saveErrorResponse id text;; getResponse id) e w).1
      = Ok (Some (object [ ("requestId", VStr id); ("text", VStr text);
                           ("status", VStr (js "error"));
                           ("timestamp", VNum (now w)); ("consumed", VBool false) ]))
  ∧ ∃ r, ((savePendingResponse id;; getResponse id) e w).1 = Ok (Some r)
         ∧ r !! "requestId" = Some (VStr id)
         ∧ r !! "status" = Some (VStr (js "pending"))
         ∧ r !! "timestamp" = Some (VNum (now w))
         ∧ r !! "consumed" = Some (VBool false).
Proof.
  intros Hdb.
  rewrite !bind_run, savePendingResponse_run, saveResponse_run, saveErrorResponse_run
    by apply Hdb.
  rewrite !getResponse_run by apply Hdb. cbn [fst].
  rewrite record_of_completed, record_of_error, record_of_pending, stored_pending_record.
  split; [reflexivity |]. split; [reflexivity |].
  eexists. split; [reflexivity |]. repeat apply conj; reflexivity.
Qed.

Lemma save_then_get_witness :
  db_available answering_env
  ∧ ((saveResponse (js "esp32-001") (js "It is noon.");; getResponse (js "esp32-001"))
       answering_env fresh_world).1
      = Ok (Some (object [ ("requestId", VStr (js "esp32-001")); ("text", VStr (js "It is noon."));
                           ("status", VStr (js "completed"));
                           ("timestamp", VNum 1000); ("consumed", VBool false) ])).
Proof.
  split; [apply answering_env_available |].
  exact (proj1 (save_then_get answering_env fresh_world (js "esp32-001")
                  (js "It is noon.") answering_env_available)).
Defined.

(** A poll that comes after the pending write and before the final one is
    answered 202 with the status pending, whatever was stored for the
    identifier before: the pending write overwrites it. *)
Theorem poll_while_pending {B} (poll : request B) e w id :
  method poll = "GET" → query poll !! "request_id" = Some (VStr id) →
  valid_id id → db_available e →
  ∃ resp w',
    ResponseApi.handler poll e (after (savePendingResponse id) e w) = (Ok resp, w')
    ∧ res_status resp = 202%Z
    ∧ body_field resp "status" = Some (VStr (js "pending")).
Proof.
  intros Hmethod Hq Hid Hdb.
  rewrite (pending_world e w id Hdb).
  rewrite (handler_get poll e _ id Hmethod Hq Hid).
  unfold ResponseApi.handleGet, try_catch.
  rewrite bind_run, getResponse_run by apply Hdb.
  rewrite record_of_pending, stored_pending_record. cbn [fmap option_fmap option_map].
  eexists _, _. split; [reflexivity |]. split; reflexivity.
Qed.

Lemma poll_while_pending_witness :
  method (response_request "GET") = "GET"
  ∧ valid_id (js "esp32-001") ∧ db_available answering_env
  ∧ ∃ resp w',
      ResponseApi.handler (response_request "GET") answering_env
        (after (savePendingResponse (js "esp32-001")) answering_env
           (after (QueryApi.handler text_request) answering_env fresh_world))
        = (Ok resp, w')
      ∧ res_status resp = 202%Z
      ∧ body_field resp "status" = Some (VStr (js "pending")).
Proof.
  split; [reflexivity |]. split; [apply example_id_valid |].
  split; [apply answering_env_available |].
  exact (poll_while_pending (response_request "GET") answering_env _ (js "esp32-001")
           eq_refl eq_refl example_id_valid answering_env_available).
Defined.



(** An acknowledgment changes nothing but the acknowledgment: on a record
    that exists, [markAsConsumed] sets consumed to true and consumedAt to
    the time of the call, and keeps every other field, the text, the
    status and the timestamp among them. *)
Theorem markAsConsumed_keeps_record e w id rec :
  record_of w id = Some rec → db_fault e (db_ops w) = None →
  let w' := after (markAsConsumed id) e w in
  field_of "consumed" w' id = Some (VBool true)
  ∧ field_of "consumedAt" w' id = Some (VNum (now w))
  ∧ ∀ k, k ≠ "consumed" → k ≠ "consumedAt" → field_of k w' id = rec !! k.
Proof.
  intros Hrec Hup w'. subst w'. unfold after, markAsConsumed, ref_update, firebase.
  rewrite bind_run. unfold Date_now. rewrite Hup.
  unfold field_of, record_of in *. cbn [snd db]. rewrite lookup_insert_eq, Hrec.
  change (default ∅ (Some rec)) with rec.
  split; [by apply lookup_union_Some_l |]. split; [by apply lookup_union_Some_l |].
  intros k Hk1 Hk2. apply lookup_union_r.
  unfold object. simpl. by rewrite !lookup_insert_ne, lookup_empty.
Qed.

Lemma markAsConsumed_keeps_record_witness :
  let w := after (QueryApi.handler text_request) answering_env fresh_world in
  record_of w (js "esp32-001") = Some (completed_record (js "It is noon.") 2200)
  ∧ db_fault answering_env (db_ops w) = None
  ∧ field_of "consumed" (after (markAsConsumed (js "esp32-001")) answering_env w)
      (js "esp32-001") = Some (VBool true)
  ∧ field_of "status" (after (markAsConsumed (js "esp32-001")) answering_env w)
      (js "esp32-001") = Some (VStr (js "completed")).
Proof.
  intros w. split; [apply text_submission_record |]. split; [reflexivity |].
  destruct (markAsConsumed_keeps_record answering_env w (js "esp32-001") _
              text_submission_record eq_refl) as (Hconsumed & _ & Hkeeps).
  split; [exact Hconsumed |].
  rewrite (Hkeeps "status") by discriminate. reflexivity.
Defined.

(** An acknowledgment of an identifier that has no record creates one, made
    of consumed and consumedAt only; having no status, it is neither
    pending nor error for the poll, which then answers 200 with the status
    completed and a text that is undefined. *)
Theorem markAsConsumed_without_record {B} (poll : request B) e w id :
  record_of w id = None → db_available e →
  method poll = "GET" → query poll !! "request_id" = Some (VStr id) → valid_id id →
  let w1 := after (markAsConsumed id) e w in
  record_of w1 id = Some (object [ ("consumed", VBool true); ("consumedAt", VNum (now w)) ])
  ∧ ∃ resp w',
      ResponseApi.handler poll e w1 = (Ok resp, w')
      ∧ res_status resp = 200%Z
      ∧ body_field resp "status" = Some (VStr (js "completed"))
      ∧ body_field resp "text" = Some VUndefined.
Proof.
  intros Hrec Hdb Hmethod Hq Hid w1.
  assert (record_of w1 id
          = Some (object [ ("consumed", VBool true); ("consumedAt", VNum (now w)) ])) as Hnew.
  { subst w1. unfold after, markAsConsumed, ref_update, firebase.
    rewrite bind_run. unfold Date_now. rewrite Hdb.
    unfold record_of in *. cbn [snd db]. rewrite lookup_insert_eq, Hrec.
    cbn [default]. by rewrite (right_id_L ∅ (∪)). }
  split; [exact Hnew |].
  rewrite (handler_get poll e _ id Hmethod Hq Hid).
  unfold ResponseApi.handleGet, try_catch.
  rewrite bind_run, getResponse_run by apply Hdb.
  rewrite Hnew. cbn [fmap option_fmap option_map].
  eexists _, _. split; [reflexivity |]. split; [reflexivity |].
  split; reflexivity.
Qed.

Lemma markAsConsumed_without_record_witness :
  record_of fresh_world (js "esp32-001") = None
  ∧ db_available answering_env ∧ valid_id (js "esp32-001")
  ∧ sent_status (ResponseApi.handler (response_request "GET") answering_env
                   (after (markAsConsumed (js "esp32-001")) answering_env fresh_world))
      = Some 200%Z.
Proof.
  split; [reflexivity |]. split; [apply answering_env_available |].
  split; [apply example_id_valid |].
  destruct (markAsConsumed_without_record (response_request "GET") answering_env fresh_world
              (js "esp32-001") eq_refl answering_env_available eq_refl eq_refl
              example_id_valid) as (_ & resp & w' & Hrun & Hstatus & _).
  unfold sent_status. rewrite Hrun. cbn [fst]. by rewrite Hstatus.
Defined.

End RoundTrips.

(** ** What the validators accept *)

Section Validators.

Implicit Types (s a : jstring) (c : N) (v : jsval) (b : QueryApi.json_body).

Lemma take_while_Forall (p : N → bool) s : Forall (λ c, p c = true) (take_while p s).
Proof.
  induction s as [| c r IH]; simpl; [constructor |].
  destruct (p c) eqn:Hc; by constructor.
Qed.

Lemma drop_while_twice (p : N → bool) s : drop_while p (drop_while p s) = drop_while p s.
Proof. apply drop_while_id, drop_while_head. Qed.

Lemma base64Regex_test_true a : WhisperService.base64Regex_test a = true → base64_shaped a.
Proof.
  unfold WhisperService.base64Regex_test. intros Htest.
  exists (take_while WhisperService.is_base64_char a),
         (drop_while WhisperService.is_base64_char a).
  split; [by rewrite take_drop_while |]. split.
  - eapply Forall_impl; [apply take_while_Forall |]. intros c. apply is_base64_char_spec.
  - rewrite !orb_true_iff, !bool_decide_eq_true in Htest. tauto.
Qed.

Lemma truthy_string v : truthy v = true → is_string v = true → ∃ s, v = VStr s ∧ s ≠ [].
Proof.
  destruct v as [| | ? | ? | s |]; try discriminate. simpl.
  rewrite negb_true_iff, bool_decide_eq_false. intros Hs _. by exists s.
Qed.

Lemma validateAudioData_valid v :
  WhisperService.valid (WhisperService.validateAudioData v) = true →
  ∃ a, v = VStr a ∧ a ≠ [] ∧ (N.of_nat (length a) ≤ 204800)%N ∧ base64_shaped a.
Proof.
  unfold WhisperService.validateAudioData.
  destruct (truthy v) eqn:Htruthy; [| discriminate]. cbn [negb].
  destruct (is_string v) eqn:Hstring; [| discriminate]. cbn [negb].
  destruct (truthy_string v Htruthy Hstring) as (a & -> & Hne). cbn [str_of].
  unfold WhisperService.too_large, WhisperService.MAX_AUDIO_SIZE_BYTES.
  destruct (N.ltb_spec 204800 (N.of_nat (length a))) as [? | Hsize]; [discriminate |].
  destruct (WhisperService.base64Regex_test a) eqn:Htest; [| discriminate].
  intros _. exists a. by auto using base64Regex_test_true.
Qed.

(** [validateAudioData] accepts exactly the strings that are not empty,
    have at most 204800 characters and are base64 in shape. *)
Theorem validateAudioData_accepts v :
  WhisperService.valid (WhisperService.validateAudioData v) = true
  ↔ ∃ a, v = VStr a ∧ a ≠ [] ∧ (N.of_nat (length a) ≤ 204800)%N ∧ base64_shaped a.
Proof.
  split; [apply validateAudioData_valid |].
  intros (a & -> & Hne & Hsize & Hshape). by rewrite validateAudioData_ok.
Qed.

Lemma body_prop_string b k s :
  QueryApi.body_prop b k = VStr s →
  ∃ props, b = QueryApi.BodyObject props ∧ props !! k = Some (VStr s).
Proof.
  destruct b as [props | ?]; [| discriminate]. unfold QueryApi.body_prop, prop.
  destruct (props !! k) as [? |] eqn:Hk; [| discriminate]. simpl. intros ->. by exists props.
Qed.

Lemma validateRequest_valid b :
  QueryApi.valid (QueryApi.validateRequest b) = true → ∃ id, acceptable_body b id.
Proof.
  unfold QueryApi.validateRequest.
  destruct (QueryApi.not_an_object b); [discriminate |]. cbv zeta.
  destruct (truthy (QueryApi.body_prop b "request_id")) eqn:Htruthy; [| discriminate].
  destruct (is_string (QueryApi.body_prop b "request_id")) eqn:Hstring; [| discriminate].
  cbn [negb orb].
  destruct (truthy_string _ Htruthy Hstring) as (id & Hid & Hne).
  destruct (body_prop_string b _ _ Hid) as (props & -> & Hprops).
  rewrite Hid. cbn [str_of].
  destruct (token_regex_test id) eqn:Htoken; [| discriminate]. cbn [negb].
  apply token_regex_test_spec in Htoken as [_ Hchars].
  destruct (Nat.ltb_spec 64 (length id)) as [? | Hlen]; [discriminate |].
  assert (valid_id id) as Hvalid by done.
  destruct (truthy (QueryApi.body_prop (QueryApi.BodyObject props) "audio")) eqn:Haudio.
  + destruct (WhisperService.valid _) eqn:Hok; [| discriminate]. intros _.
    apply validateAudioData_valid in Hok as (a & Ha & Hrest).
    destruct (body_prop_string _ _ _ Ha) as (props' & [= <-] & Hlookup).
    exists id, props. split; [done |]. split; [done |]. split; [done |].
    left. by exists a.
  + destruct (truthy (QueryApi.body_prop (QueryApi.BodyObject props) "text")) eqn:Htext;
      [| discriminate].
    destruct (is_string (QueryApi.body_prop (QueryApi.BodyObject props) "text")) eqn:Hstr;
      [| discriminate].
    cbn [negb orb].
    destruct (truthy_string _ Htext Hstr) as (t & Ht & _).
    destruct (body_prop_string _ _ _ Ht) as (props' & [= <-] & Hlookup).
    rewrite Ht. cbn [str_of].
    destruct (bool_decide (trim t = [])) eqn:Hblank; [discriminate |].
    apply bool_decide_eq_false in Hblank.
    destruct (Nat.ltb_spec 1000 (length t)) as [? | Hsize]; [discriminate |].
    intros _. exists id, props. split; [done |]. split; [done |]. split; [done |].
    right. split; [exact Haudio |]. by exists t.
Qed.

(** [validateRequest] of api/query.js accepts exactly the bodies that are
    objects with an identifier of the grammar and either an audio payload
    that [validateAudioData] accepts or, without audio, a text that is not
    blank and has at most 1000 characters. *)
Theorem validateRequest_accepts b :
  QueryApi.valid (QueryApi.validateRequest b) = true ↔ ∃ id, acceptable_body b id.
Proof.
  split; [apply validateRequest_valid |].
  intros [id Hb]. destruct (validateRequest_acceptable b id Hb) as [_ ->]. reflexivity.
Qed.

(** A POST to api/query.js whose body is not acceptable is answered 400
    with success false, and that is all: nothing is written and no
    provider is called. *)
Theorem unacceptable_submission_is_refused (req : request QueryApi.json_body) e w :
  method req = "POST" → (∀ id, ¬ acceptable_body (body req) id) →
  ∃ resp,
    QueryApi.handler req e w = (Ok resp, w)
    ∧ res_status resp = 400%Z
    ∧ body_field resp "success" = Some (VBool false)
    ∧ body_field resp "error" = Some (VStr (QueryApi.error (QueryApi.validateRequest (body req)))).
Proof.
  intros Hmethod Hbody.
  assert (QueryApi.valid (QueryApi.validateRequest (body req)) = false) as Hinvalid.
  { apply not_true_is_false. intros Hvalid.
    apply validateRequest_valid in Hvalid as [id Hid]. by apply (Hbody id). }
  unfold QueryApi.handler. rewrite Hmethod.
  destruct (decide ("POST" = "OPTIONS")) as [? | _]; [done |].
  destruct (decide ("POST" ≠ "POST")) as [? | _]; [done |].
  unfold try_catch. cbv zeta. rewrite Hinvalid. cbn [negb].
  eexists. split; [reflexivity |]. split; [reflexivity |]. split; reflexivity.
Qed.

Lemma unacceptable_submission_is_refused_witness :
  method dotdot_request = "POST"
  ∧ (∀ id, ¬ acceptable_body (body dotdot_request) id)
  ∧ ∃ resp,
      QueryApi.handler dotdot_request answering_env fresh_world = (Ok resp, fresh_world)
      ∧ res_status resp = 400%Z
      ∧ body_field resp "error" = Some (VStr (js "request_id contains invalid characters")).
Proof.
  assert (∀ id, ¬ acceptable_body (body dotdot_request) id) as Hbody.
  { intros id Hid.
    destruct (validateRequest_acceptable _ id Hid) as [_ Hvalid].
    vm_compute in Hvalid. discriminate Hvalid. }
  split; [reflexivity |]. split; [exact Hbody |].
  destruct (unacceptable_submission_is_refused dotdot_request answering_env fresh_world
              eq_refl Hbody) as (resp & Hrun & Hstatus & _ & Herror).
  exists resp. split; [exact Hrun |]. split; [exact Hstatus |].
  rewrite Herror. vm_compute. reflexivity.
Defined.

(** When the body carries audio the text is not looked at: whatever is put
    in the text field, api/query.js runs the same and answers the same. *)
Theorem audio_takes_priority (req : request QueryApi.json_body) props v e w :
  body req = QueryApi.BodyObject props → truthy (prop props "audio") = true →
  QueryApi.handler
    (Request (method req) (headers req) (query req)
       (QueryApi.BodyObject (<["text" := v]> props))) e w
  = QueryApi.handler req e w.
Proof.
  intros Hbody Haudio. unfold QueryApi.handler. cbn [method body]. rewrite Hbody.
  destruct (decide (method req = "OPTIONS")); [done |].
  destruct (decide (method req ≠ "POST")); [done |].
  unfold QueryApi.validateRequest. cbv zeta. cbn [QueryApi.not_an_object].
  assert (∀ k, k ≠ "text" →
            QueryApi.body_prop (QueryApi.BodyObject (<["text" := v]> props)) k
            = QueryApi.body_prop (QueryApi.BodyObject props) k) as Hsame.
  { intros k Hk. unfold QueryApi.body_prop, prop. by rewrite lookup_insert_ne. }
  rewrite !(Hsame "request_id") by done. rewrite !(Hsame "audio") by done.
  change (QueryApi.body_prop (QueryApi.BodyObject props) "audio") with (prop props "audio").
  rewrite Haudio.
  destruct (negb _ || negb _); [done |].
  destruct (negb (token_regex_test _)); [done |].
  destruct (64 <? _)%nat; [done |].
  destruct (negb (WhisperService.valid _)); [done |].
  reflexivity.
Qed.

Lemma audio_takes_priority_witness :
  body audio_request
    = QueryApi.BodyObject (object [ ("request_id", VStr (js "esp32-001"));
                                    ("audio", VStr (js "UklGRg==")) ])
  ∧ QueryApi.handler
      (post_query [ ("request_id", VStr (js "esp32-001")); ("audio", VStr (js "UklGRg=="));
                    ("text", VStr (js "ignored")) ]) answering_env fresh_world
    = QueryApi.handler audio_request answering_env fresh_world.
Proof.
  split; [reflexivity |].
  rewrite <- (audio_takes_priority audio_request _ (VStr (js "ignored")) answering_env
                fresh_world eq_refl eq_refl).
  reflexivity.
Defined.

End Validators.

(** ** utils/validator.js beside the checks of the handlers *)

Section ValidatorFacts.

Implicit Types (s : jstring) (c : N) (v : jsval) (b : QueryApi.json_body).

Import Validator Constants.

Lemma length_trim s : (length (trim s) ≤ length s)%nat.
Proof.
  destruct (trim_segment s) as [k ->]. rewrite length_take.
  pose proof (length_drop_while is_space s). lia.
Qed.

Lemma token_char_not_space c : token_char c → is_space c = false.
Proof.
  intros Hc. apply not_true_is_false. revert Hc.
  unfold token_char, is_space, in_range.
  rewrite !orb_true_iff, !andb_true_iff, !N.leb_le, !N.eqb_eq.
  change (ch "_") with 95%N. change (ch "-") with 45%N. lia.
Qed.

Lemma trim_token s : Forall token_char s → trim s = s.
Proof.
  intros Hs. apply trim_fixed.
  - destruct Hs as [| c r Hc _]; [done |]. by apply token_char_not_space.
  - apply Forall_reverse in Hs. destruct Hs as [| c r Hc _]; [done |].
    by apply token_char_not_space.
Qed.

Lemma validateRequestId_trimmed s :
  valid_id (trim s) → valid (validateRequestId (VStr s)) = true.
Proof.
  unfold validateRequestId, LIMITS.MAX_REQUEST_ID_LENGTH.
  intros (Hne & Hlen & Hchars).
  assert (s ≠ []) as Hs by (intros ->; by apply Hne).
  rewrite truthy_VStr by done. cbn [is_string negb orb str_of]. cbv zeta.
  rewrite bool_decide_eq_false_2 by done.
  destruct (Nat.ltb_spec 64 (length (trim s))) as [? | _]; [lia |].
  by rewrite (proj2 (token_regex_test_spec (trim s))).
Qed.

(** [validateRequestId] of utils/validator.js accepts exactly the strings
    that, once trimmed, are identifiers of the grammar. *)
Theorem validator_validateRequestId_accepts v :
  valid (validateRequestId v) = true ↔ ∃ s, v = VStr s ∧ valid_id (trim s).
Proof.
  split; [| intros (s & -> & Hvalid); by apply validateRequestId_trimmed].
  unfold validateRequestId, LIMITS.MAX_REQUEST_ID_LENGTH.
  destruct (truthy v) eqn:Htruthy; [| discriminate].
  destruct (is_string v) eqn:Hstring; [| discriminate]. cbn [negb orb].
  destruct (truthy_string v Htruthy Hstring) as (s & -> & _). cbn [str_of]. cbv zeta.
  destruct (bool_decide (trim s = [])) eqn:Hblank; [discriminate |].
  apply bool_decide_eq_false in Hblank.
  destruct (Nat.ltb_spec 64 (length (trim s))) as [? | Hlen]; [discriminate |].
  destruct (token_regex_test (trim s)) eqn:Htoken; [| discriminate]. intros _.
  apply token_regex_test_spec in Htoken as [_ Hchars]. by exists s.
Qed.

(** The checks written in the handlers are the stricter ones: an
    identifier that api/response.js accepts, and a text submission that
    api/query.js accepts, pass the validators of utils/validator.js. *)
Theorem handler_checks_imply_validator :
  (∀ v, ResponseApi.valid (ResponseApi.validateRequestId v) = true →
        valid (validateRequestId v) = true)
  ∧ (∀ b, QueryApi.valid (QueryApi.validateRequest b) = true →
          truthy (QueryApi.body_prop b "audio") = false →
          valid (validateQueryRequest b) = true).
Proof.
  assert (∀ id, valid_id id → valid (validateRequestId (VStr id)) = true) as Hid.
  { intros id (Hne & Hlen & Hchars). apply validateRequestId_trimmed.
    by rewrite (trim_token id Hchars). }
  split.
  - intros v. unfold ResponseApi.validateRequestId.
    destruct (truthy v) eqn:Htruthy; [| discriminate].
    destruct (is_string v) eqn:Hstring; [| discriminate]. cbn [negb orb].
    destruct (truthy_string v Htruthy Hstring) as (s & -> & Hne). cbn [str_of].
    destruct (token_regex_test s) eqn:Htoken; [| discriminate]. cbn [negb].
    destruct (Nat.ltb_spec 64 (length s)) as [? | Hlen]; [discriminate |]. intros _.
    apply token_regex_test_spec in Htoken as [_ Hchars]. by apply Hid.
  - intros b Hvalid Haudio.
    apply validateRequest_valid in Hvalid as (id & props & -> & Hprops & Hvalid & Hmode).
    destruct Hmode as [(a & Ha & Hne & _) | (_ & t & Ht & Hblank & Hlen)].
    { rewrite (body_prop_lookup _ _ _ Ha), (truthy_VStr a Hne) in Haudio.
      discriminate Haudio. }
    unfold validateQueryRequest. cbn [QueryApi.not_an_object]. cbv zeta.
    rewrite (body_prop_lookup _ _ _ Hprops), (body_prop_lookup _ _ _ Ht).
    rewrite (Hid id Hvalid). cbn [negb].
    assert (valid (validateQueryText (VStr t)) = true) as ->; [| reflexivity].
    unfold validateQueryText, LIMITS.MAX_QUERY_LENGTH.
    assert (t ≠ []) as Hne by (intros ->; by apply Hblank).
    rewrite truthy_VStr by done. cbn [is_string negb orb str_of]. cbv zeta.
    rewrite bool_decide_eq_false_2 by done.
    pose proof (length_trim t).
    by destruct (Nat.ltb_spec 1000 (length (trim t))) as [? | _]; [lia |].
Qed.

Lemma re_nul_removes s : Forall (λ c, c ≠ 0%N) (replace_all re_nul s).
Proof.
  eapply Forall_impl.
  - apply (replace_g_removes (λ c, negb (c =? 0)%N) re_nul).
    + intros s' n rep. unfold re_nul. case_match; intros [= <- <-]; constructor.
    + intros c r Hc. apply negb_false_iff, N.eqb_eq in Hc as ->.
      exists 0%nat, []. reflexivity.
  - intros c Hc. simpl in Hc. by apply negb_true_iff, N.eqb_neq in Hc.
Qed.

(** What [sanitizeInput] returns has at most 1000 characters, no NUL
    character, and no white space but single spaces between other
    characters or at its ends; so [validateQueryText] never refuses it
    for its length: it accepts it unless it is blank. *)
Theorem sanitizeInput_shape v :
  (length (sanitizeInput v) ≤ 1000)%nat
  ∧ Forall (λ c, c ≠ 0%N) (sanitizeInput v)
  ∧ single_spaced (sanitizeInput v)
  ∧ (trim (sanitizeInput v) ≠ [] →
     validateQueryText (VStr (sanitizeInput v)) = Validation true []).
Proof.
  assert (length (sanitizeInput v) ≤ 1000)%nat as Hlen.
  { unfold sanitizeInput, slice0, LIMITS.MAX_QUERY_LENGTH.
    destruct (is_string v); cbn [negb]; [rewrite length_take | simpl]; lia. }
  split; [exact Hlen |]. split; [| split].
  - unfold sanitizeInput, slice0. destruct (is_string v); cbn [negb]; [| constructor].
    apply Forall_take, replace_all_keeps; [| apply re_nul_removes].
    apply re_spaces_keeps. discriminate.
  - unfold sanitizeInput, slice0. destruct (is_string v); cbn [negb]; [| exact I].
    apply single_spaced_take, single_spaced_collapsed.
  - intros Hblank. unfold validateQueryText, LIMITS.MAX_QUERY_LENGTH.
    assert (sanitizeInput v ≠ []) as Hne by (intros Heq; by rewrite Heq in Hblank).
    rewrite truthy_VStr by done. cbn [is_string negb orb str_of]. cbv zeta.
    rewrite bool_decide_eq_false_2 by done.
    pose proof (length_trim (sanitizeInput v)).
    by destruct (Nat.ltb_spec 1000 (length (trim (sanitizeInput v)))) as [? | _]; [lia |].
Qed.

Lemma sanitizeInput_shape_witness :
  sanitizeInput (VStr (js "  what   time is it  ")) = js "what time is it"
  ∧ trim (sanitizeInput (VStr (js "  what   time is it  "))) ≠ []
  ∧ validateQueryText (VStr (sanitizeInput (VStr (js "  what   time is it  "))))
      = Validation true [].
Proof.
  assert (trim (sanitizeInput (VStr (js "  what   time is it  "))) ≠ []) as Hblank
    by (vm_compute; discriminate).
  split; [vm_compute; reflexivity |]. split; [exact Hblank |].
  exact (proj2 (proj2 (proj2 (sanitizeInput_shape _))) Hblank).
Defined.

End ValidatorFacts.

(** ** Identifiers of more than 64 characters *)

Section LongIdentifiers.

(** api/audio.js does not bound the length of the identifier, api/response.js
    does: an upload under an identifier of more than 64 characters is
    processed and its record written, and every GET or DELETE for that
    identifier is answered 400 and leaves the record where it is. *)
Theorem long_identifier_record_is_unreachable {B}
    (req : request (option (list Byte.byte))) (poll : request B) e w id audioBuffer :
  method req = "POST" → acceptable_upload req id audioBuffer → (64 < length id)%nat →
  db_available e →
  (method poll = "GET" ∨ method poll = "DELETE") →
  query poll !! "request_id" = Some (VStr id) →
  sent_status (AudioApi.handler req e w) = Some 200%Z
  ∧ record_of (after (AudioApi.handler req) e w) id ≠ None
  ∧ ∀ w', ∃ resp,
      ResponseApi.handler poll e w' = (Ok resp, w') ∧ res_status resp = 400%Z.
Proof.
  intros Hmethod Hupload Hlong Hdb Hpoll Hq.
  destruct (downstream (inl (VStr (AudioApi.toString_base64 audioBuffer))) e
              (written w id (pending_record (now w)))) as [r w2] eqn:Hdown.
  destruct (audio_handler_run e Hdb req w id audioBuffer r w2 Hmethod Hupload Hdown)
    as (resp & Hrun & Hstatus).
  split; [| split].
  - unfold sent_status. rewrite Hrun. cbn [fst]. by rewrite Hstatus.
  - unfold after. rewrite Hrun. cbn [snd].
    destruct r; cbn [audio_record]; by rewrite ?record_of_completed, ?record_of_error.
  - intros w'. unfold ResponseApi.handler. cbv zeta.
    destruct (decide (method poll = "OPTIONS")) as [Ho | _];
      [by destruct Hpoll as [Hm | Hm]; rewrite Hm in Ho |].
    destruct (decide (method poll ≠ "GET" ∧ method poll ≠ "DELETE")) as [[? ?] | _];
      [by destruct Hpoll |].
    unfold prop. rewrite Hq.
    change (default VUndefined (Some (VStr id))) with (VStr id).
    unfold ResponseApi.validateRequestId.
    destruct Hupload as (_ & Hne & Hchars & _).
    rewrite truthy_VStr by done. cbn [is_string negb orb str_of].
    rewrite (proj2 (token_regex_test_spec id)) by done. cbn [negb].
    destruct (Nat.ltb_spec 64 (length id)) as [_ | ?]; [| lia].
    cbn [ResponseApi.valid negb]. eexists. split; reflexivity.
Qed.

End LongIdentifiers.

Section LongIdentifierWitness.

Lemma long_upload_acceptable :
  acceptable_upload long_upload_request long_id [Byte.x52; Byte.x49; Byte.x46; Byte.x46].
Proof.
  split; [reflexivity |]. split; [discriminate |]. split.
  - apply Forall_replicate. right. left. vm_compute. split; discriminate.
  - split; [reflexivity |]. split; [discriminate |]. vm_compute. discriminate.
Qed.

Lemma long_identifier_record_is_unreachable_witness :
  method long_upload_request = "POST"
  ∧ acceptable_upload long_upload_request long_id [Byte.x52; Byte.x49; Byte.x46; Byte.x46]
  ∧ (64 < length long_id)%nat
  ∧ db_available answering_env
  ∧ sent_status (AudioApi.handler long_upload_request answering_env fresh_world) = Some 200%Z
  ∧ sent_status (ResponseApi.handler long_poll_request answering_env
                   (after (AudioApi.handler long_upload_request) answering_env fresh_world))
      = Some 400%Z.
Proof.
  assert (64 < length long_id)%nat as Hlong by (vm_compute; lia).
  split; [reflexivity |]. split; [apply long_upload_acceptable |]. split; [exact Hlong |].
  split; [apply answering_env_available |].
  destruct (long_identifier_record_is_unreachable long_upload_request long_poll_request
              answering_env fresh_world long_id _ eq_refl long_upload_acceptable Hlong
              answering_env_available (or_introl eq_refl) eq_refl)
    as (Hsent & _ & Hpoll).
  split; [exact Hsent |].
  destruct (Hpoll (after (AudioApi.handler long_upload_request) answering_env fresh_world))
    as (resp & Hrun & Hstatus).
  unfold sent_status. rewrite Hrun. cbn [fst]. by rewrite Hstatus.
Defined.

End LongIdentifierWitness.

(** ** The answers that the service stores *)

Section StoredAnswers.

(** What [generateResponse] returns went through [cleanResponse]: it has at
    most 1003 characters, none of the markers [*], [_] and [#], no white
    space but single spaces, none of them in front; and it comes from
    exactly one call to Gemini, on the trimmed text. *)
Theorem generateResponse_answer_shape text e w answer w' :
  generateResponse text e w = (Ok answer, w') →
  (length answer ≤ 1003)%nat
  ∧ Forall no_marker answer
  ∧ single_spaced answer ∧ no_leading_space answer
  ∧ log w' = log w ++ [GeminiCall (trim text)] ∧ db w' = db w.
Proof.
  unfold generateResponse, getModel, generateContent.
  run_monad. intros Hrun.
  repeat (case_match; simplify_eq; try done).
  all: simpl in *; simplify_eq.
  all: repeat (case_match; simplify_eq; try done).
  all: split; [apply cleanResponse_length |].
  all: split; [apply cleanResponse_no_marker |].
  all: split; [apply cleanResponse_spacing |].
  all: split; [apply cleanResponse_spacing | done].
Qed.

Lemma generateResponse_answer_shape_witness :
  (generateResponse (js "what time is it") answering_env fresh_world).1
    = Ok (js "It is noon.")
  ∧ Forall no_marker (js "It is noon.").
Proof.
  assert (generateResponse (js "what time is it") answering_env fresh_world
          = (Ok (js "It is noon."),
             (generateResponse (js "what time is it") answering_env fresh_world).2)) as Hrun
    by (vm_compute; reflexivity).
  split; [by rewrite Hrun |].
  exact (proj1 (proj2 (generateResponse_answer_shape _ _ _ _ _ Hrun))).
Defined.

End StoredAnswers.

(** ** When the database fails *)

Section DatabaseFailures.

Lemma ref_set_fault e w path value err :
  db_fault e (db_ops w) = Some err →
  ref_set path value e w = (Thrown err, World (db w) (now w) (log w) (S (db_ops w))).
Proof. intros Hfault. unfold ref_set, firebase. by rewrite Hfault. Qed.

Lemma savePendingResponse_fault e w id err :
  db_fault e (db_ops w) = Some err →
  savePendingResponse id e w = (Thrown err, World (db w) (now w) (log w) (S (db_ops w))).
Proof.
  intros Hfault. unfold savePendingResponse, mbind, M_bind, Date_now.
  by rewrite (ref_set_fault _ _ _ _ err).
Qed.


Lemma ref_once_fault e w path err :
  db_fault e (db_ops w) = Some err →
  ref_once path e w = (Thrown err, World (db w) (now w) (log w) (S (db_ops w))).
Proof. intros Hfault. unfold ref_once, firebase. by rewrite Hfault. Qed.

(** A request that finds the database failing at its first operation is
    answered 500: nothing was written and no provider was called. The
    query and the response handlers pass the message of the failure on,
    the audio handler does not. *)
Theorem database_failure_is_answered_500 e w err :
  db_fault e (db_ops w) = Some err →
  (∀ (req : request QueryApi.json_body) id,
     method req = "POST" → acceptable_body (body req) id →
     ∃ resp w',
       QueryApi.handler req e w = (Ok resp, w')
       ∧ res_status resp = 500%Z
       ∧ body_field resp "message" = Some (VStr (message err))
       ∧ db w' = db w ∧ log w' = log w)
  ∧ (∀ (req : request (option (list Byte.byte))) id audioBuffer,
       method req = "POST" → acceptable_upload req id audioBuffer →
       ∃ resp w',
         AudioApi.handler req e w = (Ok resp, w')
         ∧ res_status resp = 500%Z
         ∧ body_field resp "error" = Some (VStr (js "Server error"))
         ∧ body_field resp "message" = None
         ∧ db w' = db w ∧ log w' = log w)
  ∧ (∀ (poll : request ()) id,
       method poll = "GET" ∨ method poll = "DELETE" →
       query poll !! "request_id" = Some (VStr id) → valid_id id →
       ∃ resp w',
         ResponseApi.handler poll e w = (Ok resp, w')
         ∧ res_status resp = 500%Z
         ∧ body_field resp "message" = Some (VStr (message err))
         ∧ db w' = db w ∧ log w' = log w).
Proof.
  intros Hfault. split; [| split].
  - intros req id Hmethod Hbody.
    destruct (validateRequest_acceptable _ _ Hbody) as [Hid Hvalid].
    unfold QueryApi.handler. rewrite Hmethod.
    destruct (decide ("POST" = "OPTIONS")) as [? | _]; [done |].
    destruct (decide ("POST" ≠ "POST")) as [? | _]; [done |].
    unfold try_catch. rewrite Hvalid, Hid. cbn [QueryApi.valid QueryApi.inputType negb].
    rewrite bind_run, (savePendingResponse_fault e w id err Hfault).
    eexists _, _. split; [reflexivity |]. repeat apply conj; reflexivity.
  - intros req id audioBuffer Hmethod (Hhdr & Hne & Hchars & Hbody & Hbuf & Hsize).
    unfold AudioApi.handler. rewrite Hmethod.
    destruct (decide ("POST" = "OPTIONS")) as [? | _]; [done |].
    destruct (decide ("POST" ≠ "POST")) as [? | _]; [done |].
    unfold try_catch, prop. cbv zeta. rewrite Hhdr, Hbody.
    change (default VUndefined (Some (VStr id))) with (VStr id). cbn [str_of is_string].
    rewrite truthy_VStr by done.
    rewrite (proj2 (token_regex_test_spec id)) by done. cbn [negb orb].
    rewrite bool_decide_eq_false_2 by done.
    unfold AudioApi.MAX_AUDIO_SIZE.
    destruct (N.ltb_spec 2097152 (N.of_nat (length audioBuffer))) as [? | _]; [lia |].
    rewrite bind_run, (savePendingResponse_fault e w id err Hfault).
    eexists _, _. split; [reflexivity |]. repeat apply conj; reflexivity.
  - intros poll id Hpoll Hq Hid. destruct Hpoll as [Hmethod | Hmethod].
    + rewrite (handler_get poll e w id Hmethod Hq Hid).
      unfold ResponseApi.handleGet, try_catch, getResponse. cbv zeta.
      rewrite !bind_run, (ref_once_fault e w _ err Hfault).
      eexists _, _. split; [reflexivity |]. repeat apply conj; reflexivity.
    + rewrite (handler_delete poll e w id Hmethod Hq Hid).
      unfold ResponseApi.handleDelete, try_catch, deleteResponse. cbv zeta.
      rewrite !bind_run, (ref_once_fault e w _ err Hfault).
      eexists _, _. split; [reflexivity |]. repeat apply conj; reflexivity.
Qed.

Lemma database_failure_is_answered_500_witness :
  db_fault down_env (db_ops fresh_world) = Some (new_Error (js "PERMISSION_DENIED"))
  ∧ method text_request = "POST"
  ∧ acceptable_body (body text_request) (js "esp32-001")
  ∧ ∃ resp w',
      QueryApi.handler text_request down_env fresh_world = (Ok resp, w')
      ∧ res_status resp = 500%Z
      ∧ body_field resp "message" = Some (VStr (js "PERMISSION_DENIED"))
      ∧ db w' = db fresh_world ∧ log w' = log fresh_world.
Proof.
  split; [reflexivity |]. split; [reflexivity |]. split; [apply text_request_acceptable |].
  exact (proj1 (database_failure_is_answered_500 down_env fresh_world
                  (new_Error (js "PERMISSION_DENIED")) eq_refl)
           text_request (js "esp32-001") eq_refl text_request_acceptable).
Defined.



End DatabaseFailures.

(** ** Deleting and testing for a record *)

Section Existence.

Lemma responseExists_run e w id :
  db_fault e (db_ops w) = None →
  responseExists id e w =
    (Ok (bool_decide (is_Some (record_of w id))),
     World (db w) (now w) (log w ++ [DbOnce (getRef id)]) (S (db_ops w))).
Proof.
  intros Hup. unfold responseExists, record_of. cbv zeta.
  by rewrite bind_run, ref_once_run.
Qed.

(** [deleteResponse] returns what [responseExists] would have returned;
    after it the record neither exists nor is read, whatever was there;
    and after a write the record exists. *)
Theorem deleteResponse_and_responseExists e w id :
  db_available e →
  (deleteResponse id e w).1 = (responseExists id e w).1
  ∧ ((deleteResponse id;; responseExists id) e w).1 = Ok false
  ∧ ((deleteResponse id;; getResponse id) e w).1 = Ok None
  ∧ ((savePendingResponse id;; responseExists id) e w).1 = Ok true.
Proof.
  intros Hdb.
  assert (∃ w1, deleteResponse id e w = (Ok (bool_decide (is_Some (record_of w id))), w1)
                ∧ record_of w1 id = None) as (w1 & Hdelete & Hgone).
  { unfold deleteResponse. cbv zeta. rewrite bind_run, ref_once_run by apply Hdb.
    unfold record_of. destruct (db w !! getRef id) as [rec |] eqn:Hrec.
    - rewrite bind_run, ref_remove_run by apply Hdb. eexists. split.
      + rewrite bool_decide_eq_true_2 by done. reflexivity.
      + cbn [db]. apply lookup_delete_eq.
    - eexists. split.
      + rewrite bool_decide_eq_false_2 by (by intros [? ?]). reflexivity.
      + exact Hrec. }
  split; [| split; [| split]].
  - rewrite Hdelete, responseExists_run by apply Hdb. reflexivity.
  - rewrite bind_run, Hdelete, responseExists_run by apply Hdb. cbn [fst].
    rewrite Hgone. reflexivity.
  - rewrite bind_run, Hdelete, getResponse_run by apply Hdb. cbn [fst].
    by rewrite Hgone.
  - rewrite bind_run, savePendingResponse_run, responseExists_run by apply Hdb. cbn [fst].
    rewrite record_of_pending. reflexivity.
Qed.

Lemma deleteResponse_and_responseExists_witness :
  db_available answering_env
  ∧ (deleteResponse (js "esp32-001") answering_env
       (after (QueryApi.handler text_request) answering_env fresh_world)).1 = Ok true
  ∧ ((deleteResponse (js "esp32-001");; responseExists (js "esp32-001")) answering_env
       (after (QueryApi.handler text_request) answering_env fresh_world)).1 = Ok false.
Proof.
  split; [apply answering_env_available |].
  destruct (deleteResponse_and_responseExists answering_env
              (after (QueryApi.handler text_request) answering_env fresh_world)
              (js "esp32-001") answering_env_available) as (Hsame & Hgone & _).
  split; [| exact Hgone].
  rewrite Hsame. vm_compute. reflexivity.
Defined.

End Existence.

(** ** An audio submission that is answered *)

Section AudioSubmission.




End AudioSubmission.
